(** * Market Pulse Bot: a shallow embedding of [Market_Pulse.py]

    The development follows the source file top to bottom:
    - [Float]     : the numbers the script computes with.  Arithmetic is
                    exact on rationals; the IEEE special values that pandas
                    produces instead of raising ([inf], [-inf], [NaN]) are
                    explicit constructors.  Binary rounding error and the
                    sign of zero are not modelled.
    - [Pandas]    : the few [pd.Series] operations [compute_rsi] uses.
    - [Indicator] : [compute_rsi].
    - [Snapshot]  : [fetch_snapshot], with the provider calls as inputs and
                    the [try]/[except] block as a state-and-error monad.
    - [Message]   : [build_message].
    - [Notifier]  : [post_discord] and [run_once].
    - [Scheduler] : one iteration of the loop of [main]; a datetime is
                    its calendar date, its clock reading and the UTC
                    offset of the [tzinfo] it carries.

    Logging ([info], [warn], [err], [preview_df]) only prints and is left
    out; configuration loading is outside the functions verified here. *)

From Stdlib Require Import String Ascii DecimalString ZArith QArith Qround Lia Lqa Bool List.
From Equations Require Import Equations.
Import ListNotations.

(* ===================================================================== *)
(** ** Floating-point values *)
(* ===================================================================== *)

Module Float.

Open Scope Q_scope.

(** A Python / numpy [float]: a finite value or one of the special values. *)
Inductive float : Type :=
| Fin (q : Q)
| PInf
| NInf
| NaN.

Definition is_nan (x : float) : bool :=
  match x with NaN => true | _ => false end.

Definition Qltb (a b : Q) : bool := negb (Qle_bool b a).

(** [x > 0] and [x < 0]; every comparison with [NaN] is false. *)
Definition gt0 (x : float) : bool :=
  match x with
  | Fin q => Qltb 0 q
  | PInf => true
  | NInf | NaN => false
  end.

Definition lt0 (x : float) : bool :=
  match x with
  | Fin q => Qltb q 0
  | NInf => true
  | PInf | NaN => false
  end.

Definition neg (x : float) : float :=
  match x with
  | Fin q => Fin (- q)
  | PInf => NInf
  | NInf => PInf
  | NaN => NaN
  end.

Definition add (x y : float) : float :=
  match x, y with
  | NaN, _ | _, NaN => NaN
  | Fin a, Fin b => Fin (a + b)
  | PInf, NInf | NInf, PInf => NaN
  | PInf, _ | _, PInf => PInf
  | NInf, _ | _, NInf => NInf
  end.

Definition sub (x y : float) : float := add x (neg y).

(** numpy division: a zero divisor yields an infinity or [NaN], it never
    raises. *)
Definition div (x y : float) : float :=
  match x, y with
  | NaN, _ | _, NaN => NaN
  | Fin a, Fin b =>
      if Qeq_bool b 0 then
        if Qeq_bool a 0 then NaN
        else if Qltb 0 a then PInf else NInf
      else Fin (a / b)
  | Fin _, (PInf | NInf) => Fin 0
  | (PInf | NInf), (PInf | NInf) => NaN
  | PInf, Fin b => if Qltb b 0 then NInf else PInf
  | NInf, Fin b => if Qltb b 0 then PInf else NInf
  end.

Definition mul (x y : float) : float :=
  match x, y with
  | NaN, _ | _, NaN => NaN
  | Fin a, Fin b => Fin (a * b)
  | Fin a, PInf | PInf, Fin a =>
      if Qeq_bool a 0 then NaN else if Qltb 0 a then PInf else NInf
  | Fin a, NInf | NInf, Fin a =>
      if Qeq_bool a 0 then NaN else if Qltb 0 a then NInf else PInf
  | PInf, PInf | NInf, NInf => PInf
  | PInf, NInf | NInf, PInf => NInf
  end.

(** Round half to even to an integer, as [round] does. *)
Definition round_half_even (q : Q) : Z :=
  let f := Qfloor q in
  let r := q - inject_Z f in
  match Qcompare r (1 # 2) with
  | Lt => f
  | Gt => (f + 1)%Z
  | Eq => if Z.even f then f else (f + 1)%Z
  end.

(** [round(q, 2)] on a finite value, in lowest terms. *)
Definition Qround2 (q : Q) : Q :=
  Qred (inject_Z (round_half_even (q * 100)) / 100).

(** [round(x, 2)]; the special values round to themselves. *)
Definition round2 (x : float) : float :=
  match x with
  | Fin q => Fin (Qround2 q)
  | _ => x
  end.

End Float.

(* ===================================================================== *)
(** ** The [pd.Series] operations used by the script *)
(* ===================================================================== *)

Module Pandas.
Import Float.

(** A series is the list of its values in index order. *)
Definition series := list float.

Fixpoint zip_with (f : float -> float -> float) (xs ys : series) : series :=
  match xs, ys with
  | x :: xs', y :: ys' => f x y :: zip_with f xs' ys'
  | _, _ => []
  end.

Fixpoint diff_from (prev : float) (xs : series) : series :=
  match xs with
  | [] => []
  | x :: t => sub x prev :: diff_from x t
  end.

(** [s.diff()]: the first entry has no predecessor and is [NaN]. *)
Definition diff (xs : series) : series :=
  match xs with
  | [] => []
  | x :: t => NaN :: diff_from x t
  end.

(** [s.where(mask, other)]: keep the entry where the mask holds. *)
Fixpoint where_ (xs : series) (mask : list bool) (other : float) : series :=
  match xs, mask with
  | x :: xs', m :: mask' => (if m then x else other) :: where_ xs' mask' other
  | _, _ => []
  end.

Definition sum (xs : series) : float := fold_right add (Fin 0) xs.

Definition mean (xs : series) : float :=
  div (sum xs) (Fin (inject_Z (Z.of_nat (length xs)))).

(** The [window] entries that end at index [i]. *)
Definition window_at {A : Type} (window i : nat) (xs : list A) : list A :=
  firstn window (skipn (i + 1 - window) xs).

(** [s.rolling(window).mean()]: [NaN] until the window is complete. *)
Definition rolling_mean (window : nat) (xs : series) : series :=
  map (fun i => if (i + 1 <? window)%nat then NaN
                else mean (window_at window i xs))
      (seq 0 (length xs)).

Definition dropna (xs : series) : series :=
  filter (fun x => negb (is_nan x)) xs.

(** [s.iloc[-1]] of a non-empty series. *)
Definition iloc_last (xs : series) : float := last xs NaN.

End Pandas.

(* ===================================================================== *)
(** ** IndicatorEngine: [compute_rsi] *)
(* ===================================================================== *)

Module Indicator.
Import Float Pandas.

Section Rsi.
(** The closes of the series, oldest first, and the window length. *)
Variable close : list Q.
Variable period : nat.

Definition delta : series := diff (map Fin close).
Definition gain : series := where_ delta (map gt0 delta) (Fin 0).
Definition loss : series := map neg (where_ delta (map lt0 delta) (Fin 0)).
Definition avg_gain : series := rolling_mean period gain.
Definition avg_loss : series := rolling_mean period loss.
Definition rs : series := zip_with div avg_gain avg_loss.

(** [100 - (100 / (1 + rs))] at one entry. *)
Definition oscillator (r : float) : float :=
  sub (Fin 100) (div (Fin 100) (add (Fin 1) r)).

Definition rsi : series := map oscillator rs.

(** [compute_rsi(close, period)]; the result [None] is the source's
    [None].  The argument is always a series here, so the test
    [close is None] is not represented. *)
Definition compute_rsi : option float :=
  if ((length close =? 0) || (length close <? period + 1))%nat then None
  else
    let rsi := dropna rsi in
    match rsi with
    | [] => None
    | _ => Some (round2 (iloc_last rsi))
    end.
End Rsi.

End Indicator.

(* ===================================================================== *)
(** ** SnapshotFetcher: [fetch_snapshot] *)
(* ===================================================================== *)

Module Snapshot.
Import Float Indicator.
Local Open Scope string_scope.

(** An [Exception] instance, with its message. *)
Inductive exn : Type := Exn (msg : string).

(** What a call into the outside world does: it returns or it raises. *)
Inductive response (A : Type) : Type :=
| Returns (a : A)
| Raises (e : exn).
Arguments Returns {A} a.
Arguments Raises {A} e.

(** The data frame of a download, reduced to its ["Close"] column, oldest
    row first; the closes are finite numbers.  [None] is Python's [None]. *)
Definition dataframe := option (list Q).

(** [yf.download(ticker, period=..., interval=...)]. *)
Definition provider := string -> string -> string -> response dataframe.

(** The dict [snap]. *)
Record snapshot : Type := {
  s_ticker : string;
  s_last : option float;
  s_chg_pct : option float;
  s_rsi : option float
}.

Definition set_last (v : float) (s : snapshot) : snapshot :=
  {| s_ticker := s_ticker s; s_last := Some v;
     s_chg_pct := s_chg_pct s; s_rsi := s_rsi s |}.

Definition set_chg_pct (v : float) (s : snapshot) : snapshot :=
  {| s_ticker := s_ticker s; s_last := s_last s;
     s_chg_pct := Some v; s_rsi := s_rsi s |}.

Definition set_rsi (v : option float) (s : snapshot) : snapshot :=
  {| s_ticker := s_ticker s; s_last := s_last s;
     s_chg_pct := s_chg_pct s; s_rsi := v |}.

(** The body of the [try] block mutates [snap] and may raise: a state
    monad over the dict in which an exception keeps the updates made so
    far. *)
Definition M (A : Type) : Type := snapshot -> snapshot * response A.

Definition ret {A} (a : A) : M A := fun s => (s, Returns a).

Definition bind {A B} (m : M A) (k : A -> M B) : M B :=
  fun s =>
    match m s with
    | (s', Returns a) => k a s'
    | (s', Raises e) => (s', Raises e)
    end.

Definition call {A} (r : response A) : M A := fun s => (s, r).

Definition update (f : snapshot -> snapshot) : M unit :=
  fun s => (f s, Returns tt).

Definition when (b : bool) (m : M unit) : M unit := if b then m else ret tt.

Notation "x <- m ;; k" := (bind m (fun x => k))
  (at level 61, m at next level, right associativity).
Notation "m ;;; k" := (bind m (fun _ => k))
  (at level 61, right associativity).

(** [df is not None and not df.empty], with the closes at hand. *)
Definition rows (df : dataframe) : list Q :=
  match df with Some closes => closes | None => [] end.

Definition nonempty (df : dataframe) : bool :=
  negb (length (rows df) =? 0)%nat.

(** [closes.iloc[-1]] and [closes.iloc[-2]]. *)
Definition close_last (closes : list Q) : Q := List.last closes 0%Q.
Definition close_prev (closes : list Q) : Q :=
  List.last (removelast closes) 0%Q.

(** [(last_close - prev) / prev * 100.0]. *)
Definition pct_change (last_close prev : Q) : float :=
  mul (div (sub (Fin last_close) (Fin prev)) (Fin prev)) (Fin 100).

Section Fetch.
Variable download : provider.

Definition try_body (ticker : string) : M unit :=
  df_1m <- call (download ticker "1d" "1m") ;;
  when (nonempty df_1m) (
    let last_close := close_last (rows df_1m) in
    update (set_last (round2 (Fin last_close))) ;;;
    when (1 <? length (rows df_1m))%nat (
      let prev := close_prev (rows df_1m) in
      when (negb (Qeq_bool prev 0))
           (update (set_chg_pct (round2 (pct_change last_close prev)))))) ;;;
  df_15m <- call (download ticker "7d" "15m") ;;
  when (nonempty df_15m)
       (update (set_rsi (compute_rsi (rows df_15m) 14))).

(** [fetch_snapshot(ticker, preview_rows)]: the [except Exception] clause
    only logs, so whatever the body did to [snap] is what is returned. *)
Definition fetch_snapshot (ticker : string) (preview_rows : nat) : snapshot :=
  let snap := {| s_ticker := ticker; s_last := None;
                 s_chg_pct := None; s_rsi := None |} in
  fst (try_body ticker snap).
End Fetch.

End Snapshot.

(* ===================================================================== *)
(** ** MessageFormatter: [build_message] *)
(* ===================================================================== *)

Module Message.
Import Float Snapshot.
Local Open Scope string_scope.

(** Strings are UTF-8 byte strings; Python counts code points, that is the
    bytes that are not continuation bytes. *)
Definition is_continuation (c : ascii) : bool :=
  let n := N_of_ascii c in ((128 <=? n) && (n <? 192))%N.

Fixpoint len (s : string) : nat :=
  match s with
  | EmptyString => 0
  | String c t => ((if is_continuation c then 0 else 1) + len t)%nat
  end.

(** ["c" * n]. *)
Fixpoint times (c : ascii) (n : nat) : string :=
  match n with
  | O => EmptyString
  | S n' => String c (times c n')
  end.

(** The format specifications [:<w] and [:>w]. *)
Definition ljust (w : nat) (s : string) : string := s ++ times " " (w - len s).
Definition rjust (w : nat) (s : string) : string := times " " (w - len s) ++ s.

Definition digits (n : Z) : string :=
  DecimalString.NilZero.string_of_uint (N.to_uint (Z.to_N n)).

Definition two_digits (n : Z) : string :=
  if (n <? 10)%Z then "0" ++ digits n else digits n.

(** The format specification [:.2f]. *)
Definition format_2f (x : float) : string :=
  match x with
  | Fin q =>
      let n := round_half_even (q * 100) in
      let a := Z.abs n in
      (if Qltb q 0 then "-" else "") ++
      digits (a / 100) ++ "." ++ two_digits (a mod 100)
  | PInf => "inf"
  | NInf => "-inf"
  | NaN => "nan"
  end.

(** [f"{v:.2f}" if isinstance(v, (int, float)) else "n/a"]. *)
Definition cell (v : option float) : string :=
  match v with
  | Some x => format_2f x
  | None => "n/a"
  end.

Definition newline : string := String (ascii_of_nat 10) EmptyString.

(** The line appended for one snapshot in the [for] loop. *)
Definition row (s : snapshot) : string :=
  ljust 8 (s_ticker s) ++ " " ++ rjust 9 (cell (s_last s)) ++ " " ++
  rjust 7 (cell (s_chg_pct s)) ++ " " ++ rjust 8 (cell (s_rsi s)).

(** The lines before the loop; [generated_at] is the formatted reading of
    the local clock. *)
Definition header (generated_at : string) : list string :=
  [ "📊 **Market Pulse Bot — Snapshot**";
    "_Generated at " ++ generated_at ++ " local_";
    "";
    "```";
    ljust 8 "Ticker" ++ " " ++ rjust 9 "Last" ++ " " ++
      rjust 7 "Δ%" ++ " " ++ rjust 8 "RSI(14)";
    times "-" 34 ].

(** [lines.append(x)]. *)
Definition append (lines : list string) (x : string) : list string :=
  (lines ++ [x])%list.

(** The list [lines] at the [return]: the header, then the [for] loop
    appending one line per snapshot, then the closing fence. *)
Definition message_lines (generated_at : string) (snaps : list snapshot)
  : list string :=
  let lines := header generated_at in
  let lines := fold_left (fun lines s => append lines (row s)) snaps lines in
  append lines "```".

Definition build_message (generated_at : string) (snaps : list snapshot)
  : string :=
  String.concat newline (message_lines generated_at snaps).

End Message.

(* ===================================================================== *)
(** ** Notifier: [post_discord], and the pipeline [run_once] *)
(* ===================================================================== *)

Module Notifier.
Import Snapshot Message.

(** The response object of [requests.post]. *)
Record http_response : Type := {
  status_code : Z;
  text : string
}.

(** [requests.post(webhook, json={"content": content}, timeout=30)]. *)
Definition transport := string -> string -> response http_response.

Definition post_discord (post : transport) (webhook content : string) : bool :=
  match post webhook content with
  | Returns r => if ((200 <=? status_code r) && (status_code r <? 300))%Z
                 then true else false
  | Raises _ => false
  end.

(** What one run does to the outside world: the text handed to the
    transport and whether the delivery succeeded.  The Python function
    itself returns [None]. *)
Record run : Type := {
  snaps : list snapshot;
  msg : string;
  ok : bool
}.

Definition run_once (download : provider) (post : transport)
    (generated_at : string)
    (tickers : list string) (webhook : string) (preview_rows : nat) : run :=
  let snaps := map (fun t => fetch_snapshot download t preview_rows) tickers in
  let msg := build_message generated_at snaps in
  let ok := post_discord post webhook msg in
  {| snaps := snaps; msg := msg; ok := ok |}.

End Notifier.

(* ===================================================================== *)
(** ** MarketScheduler: one iteration of the loop of [main] *)
(* ===================================================================== *)

Module Scheduler.

Local Open Scope Z_scope.

(** [datetime.time]: a time of day. *)
Record time : Type := {
  hour : Z;
  minute : Z;
  second : Z;
  microsecond : Z
}.

(** [dtime(h, m)]: seconds and microseconds default to zero. *)
Definition dtime (h m : Z) : time :=
  {| hour := h; minute := m; second := 0; microsecond := 0 |}.

(** Which [tzinfo] object a datetime carries.  [datetime.now(ET)] attaches
    the localized one, Eastern standard time or, when [dst], Eastern
    daylight time.  [replace(tzinfo=ET)] puts the zone object [ET] itself
    there, and a pytz zone taken as it is stands for its first entry,
    local mean time. *)
Inductive tzinfo : Type := Localized (dst : bool) | Zone.

(** [tzinfo.utcoffset], in minutes: -05:00, -04:00 and, for the zone
    object of US/Eastern, -04:56. *)
Definition utcoffset (z : tzinfo) : Z :=
  match z with
  | Localized false => -300
  | Localized true => -240
  | Zone => -296
  end.

(** Whether two datetimes carry the same [tzinfo] object. *)
Definition same_tzinfo (a b : tzinfo) : bool :=
  match a, b with
  | Localized x, Localized y => Bool.eqb x y
  | Zone, Zone => true
  | _, _ => false
  end.

(** An aware [datetime]: the proleptic Gregorian ordinal of its date
    ([date.toordinal()]), its time of day and its [tzinfo]. *)
Record datetime : Type := {
  ordinal : Z;
  clock : time;
  tz : tzinfo
}.

(** [d.time()]. *)
Definition time_of (d : datetime) : time := clock d.

(** [d.weekday()]: Monday is 0 and Sunday is 6; ordinal 1 is a Monday. *)
Definition weekday (d : datetime) : Z := (ordinal d + 6) mod 7.

(** [d.replace(hour=h, minute=m, second=0, microsecond=0)]. *)
Definition replace (d : datetime) (h m : Z) : datetime :=
  {| ordinal := ordinal d; clock := dtime h m; tz := tz d |}.

(** [d.replace(hour=h, minute=m, second=0, microsecond=0, tzinfo=ET)]. *)
Definition replace_tz (d : datetime) (h m : Z) : datetime :=
  {| ordinal := ordinal d; clock := dtime h m; tz := Zone |}.

(** [d + timedelta(days=n)]. *)
Definition add_days (d : datetime) (n : Z) : datetime :=
  {| ordinal := ordinal d + n; clock := clock d; tz := tz d |}.

(** Times of day compare field by field, most significant first. *)
Definition time_compare (a b : time) : comparison :=
  match hour a ?= hour b with
  | Eq =>
      match minute a ?= minute b with
      | Eq =>
          match second a ?= second b with
          | Eq => microsecond a ?= microsecond b
          | c => c
          end
      | c => c
      end
  | c => c
  end.

Definition time_le (a b : time) : bool :=
  match time_compare a b with Gt => false | _ => true end.

Definition time_gt (a b : time) : bool :=
  match time_compare a b with Gt => true | _ => false end.

(** Microseconds since midnight. *)
Definition micros (t : time) : Z :=
  ((hour t * 60 + minute t) * 60 + second t) * 1000000 + microsecond t.

(** [minutes_since_open(now_et, open_t)]: both datetimes are on the same
    date and carry the same [tzinfo], so their difference is the
    difference of the clock readings. *)
Definition minutes_since_open (now_et : datetime) (open_t : time) : Q :=
  let mo := replace now_et (hour open_t) (minute open_t) in
  let elapsed := micros (clock now_et) - micros (clock mo) in
  (inject_Z elapsed / 1000000 / 60)%Q.

(** The settings read once before the loop. *)
Record schedule : Type := {
  open_h : Z;
  open_m : Z;
  close_h : Z;
  close_m : Z;
  early_int : Z;
  early_dur : Z;
  later_int : Z
}.

Definition MARKET_OPEN (cfg : schedule) : time := dtime (open_h cfg) (open_m cfg).
Definition MARKET_CLOSE (cfg : schedule) : time := dtime (close_h cfg) (close_m cfg).

(** [while next_day.weekday() >= 5: next_day += timedelta(days=1)]. *)
Equations? skip_weekend (next_day : datetime) : datetime
  by wf (Z.to_nat ((7 - weekday next_day) mod 7)) lt :=
  skip_weekend next_day with Z_le_dec 5 (weekday next_day) => {
    | left _ => skip_weekend (add_days next_day 1)
    | right _ => next_day
  }.
Proof.
  unfold weekday in *. simpl.
  assert (H := Z.mod_pos_bound (ordinal next_day + 6) 7 ltac:(lia)).
  assert (E : (ordinal next_day + 1 + 6) mod 7
              = ((ordinal next_day + 6) mod 7 + 1) mod 7)
    by (rewrite Z.add_mod_idemp_l by lia; f_equal; lia).
  rewrite E.
  assert (C : (ordinal next_day + 6) mod 7 = 5 \/ (ordinal next_day + 6) mod 7 = 6)
    by lia.
  destruct C as [C | C]; rewrite C; vm_compute; lia.
Qed.

(** The microseconds from the reading of [b] to the reading of [a], on
    calendar and clock. *)
Definition naive_micros (a b : datetime) : Z :=
  (ordinal a - ordinal b) * 86400000000 + (micros (clock a) - micros (clock b)).

(** [(next_open - now_et).total_seconds()]: datetimes with the same
    [tzinfo] are subtracted as they read, others after each is moved to
    UTC by its own offset. *)
Definition sleep_secs (next_open now_et : datetime) : Q :=
  let us :=
    if same_tzinfo (tz next_open) (tz now_et)
    then naive_micros next_open now_et
    else naive_micros next_open now_et
         - (utcoffset (tz next_open) - utcoffset (tz now_et)) * 60000000 in
  (inject_Z us / 1000000)%Q.

(** What an iteration of the loop decides; a waiting tick then sleeps
    [sleep_secs next_open now_et] seconds. *)
Inductive decision : Type :=
| RunThenSleep (interval : Z)      (* [run_once]; [time.sleep(interval * 60)] *)
| SleepUntil (next_open : datetime) (* [sleep_until(next_open - now_et)] *).

(** The body of [while True], for the reading [now_et] of the clock. *)
Definition tick (cfg : schedule) (now_et : datetime) : decision :=
  let today_open :=
    replace now_et (hour (MARKET_OPEN cfg)) (minute (MARKET_OPEN cfg)) in
  let today_close :=
    replace now_et (hour (MARKET_CLOSE cfg)) (minute (MARKET_CLOSE cfg)) in
  if time_le (time_of today_open) (time_of now_et)
     && time_le (time_of now_et) (time_of today_close)
  then
    let mins_open := minutes_since_open now_et (MARKET_OPEN cfg) in
    let interval :=
      if Qle_bool mins_open (inject_Z (early_dur cfg))
      then early_int cfg else later_int cfg in
    RunThenSleep interval
  else if time_gt (time_of now_et) (time_of today_close) then
    let next_day := skip_weekend (add_days now_et 1) in
    SleepUntil
      (replace_tz next_day (hour (MARKET_OPEN cfg)) (minute (MARKET_OPEN cfg)))
  else
    SleepUntil today_open.

End Scheduler.

(* ===================================================================== *)
(** ** Settings: [cfg] and the ticker list of [main] *)
(* ===================================================================== *)

Module Settings.
Local Open Scope string_scope.

(** What [yaml.safe_load] can return, as far as the script looks at it. *)
#[local] Unset Elimination Schemes.
Inductive yaml : Type :=
| YNull
| YBool (b : bool)
| YInt (z : Z)
| YStr (s : string)
| YList (l : list yaml)
| YDict (items : list (string * yaml)).
#[local] Set Elimination Schemes.

(** [key in d] and [d[key]] on the items of a dict. *)
Fixpoint get (items : list (string * yaml)) (key : string) : option yaml :=
  match items with
  | [] => None
  | (k, v) :: rest => if String.eqb k key then Some v else get rest key
  end.

(** [s.split(sep)] for a separator of one character: every occurrence
    splits, empty pieces are kept. *)
Fixpoint split (sep : ascii) (s : string) : list string :=
  match s with
  | EmptyString => [EmptyString]
  | String c t =>
      if Ascii.eqb c sep then EmptyString :: split sep t
      else match split sep t with
           | h :: r => String c h :: r
           | [] => [String c EmptyString]
           end
  end.

(** The [for] loop of [cfg] over the parts of the path. *)
Fixpoint walk (cur : yaml) (parts : list string) (default : yaml) : yaml :=
  match parts with
  | [] => cur
  | part :: rest =>
      match cur with
      | YDict items =>
          match get items part with
          | Some v => walk v rest default
          | None => default
          end
      | _ => default
      end
  end.

(** [cfg(d, path, default)]. *)
Definition cfg (d : yaml) (path : string) (default : yaml) : yaml :=
  walk d (split "." path) default.

(** ASCII white space, what [str.strip] removes from ASCII text.  Python
    also removes the white space beyond ASCII (the no-break space and
    others), so [lstrip], [rstrip] and [strip] below are those of Python
    on ASCII text only, and are used under that assumption. *)
Definition is_space (c : ascii) : bool :=
  let n := N_of_ascii c in
  (((9 <=? n) && (n <=? 13)) || ((28 <=? n) && (n <=? 32)))%N.

Fixpoint lstrip (s : string) : string :=
  match s with
  | EmptyString => EmptyString
  | String c t => if is_space c then lstrip t else s
  end.

Fixpoint rstrip (s : string) : string :=
  match s with
  | EmptyString => EmptyString
  | String c t =>
      match rstrip t with
      | EmptyString => if is_space c then EmptyString else String c EmptyString
      | r => String c r
      end
  end.

(** [s.strip()]. *)
Definition strip (s : string) : string := rstrip (lstrip s).

(** [s.upper()] on ASCII text: the letters a to z become A to Z.  Python
    also changes letters beyond ASCII, so this is [str.upper] on ASCII
    text only, and is used under that assumption. *)
Definition upper_char (c : ascii) : ascii :=
  let n := N_of_ascii c in
  if ((97 <=? n) && (n <=? 122))%N then ascii_of_N (n - 32) else c.

Fixpoint upper (s : string) : string :=
  match s with
  | EmptyString => EmptyString
  | String c t => String (upper_char c) (upper t)
  end.

(** A string is true when it is not empty. *)
Definition truthy (s : string) : bool :=
  match s with EmptyString => false | _ => true end.

(** [[t.strip().upper() for t in env_tickers.split(",") if t.strip()]]. *)
Definition parse_tickers (env_tickers : string) : list string :=
  map (fun t => upper (strip t))
      (filter (fun t => truthy (strip t)) (split "," env_tickers)).

(** The ticker list of [main]: [getenv] is the value of the environment
    variable TICKERS, [None] when it is not set.  As [strip] and [upper],
    this is the source's list for ASCII values of the variable. *)
Definition tickers (getenv : option string) (cfg_all : yaml) : yaml :=
  let env_tickers :=
    strip (match getenv with Some v => v | None => "" end) in
  if truthy env_tickers then YList (map YStr (parse_tickers env_tickers))
  else cfg cfg_all "market.tickers"
           (YList [YStr "SPY"; YStr "QQQ"; YStr "DIA"]).

End Settings.

(* ===================================================================== *)
(** ** Vocabulary for the statements about [compute_rsi] *)
(* ===================================================================== *)

Module IndicatorSpec.
Import Float.
Local Open Scope Q_scope.

(** The changes between consecutive closes, after the close [prev]. *)
Fixpoint steps (prev : Q) (xs : list Q) : list Q :=
  match xs with
  | [] => []
  | x :: t => (x + - prev) :: steps x t
  end.

(** The rise and the fall of one change. *)
Definition up (d : Q) : Q := if Qltb 0 d then d else 0.
Definition down (d : Q) : Q := - (if Qltb d 0 then d else 0).

(** The entries of the series [gain] and [loss] as rationals. *)
Definition gains (close : list Q) : list Q :=
  match close with
  | [] => []
  | c :: t => 0 :: map up (steps c t)
  end.

Definition losses (close : list Q) : list Q :=
  match close with
  | [] => []
  | c :: t => - 0 :: map down (steps c t)
  end.

Definition qsum (xs : list Q) : Q := fold_right Qplus 0 xs.

(** All closes are equal. *)
Definition constantb (close : list Q) : bool :=
  forallb (Qeq_bool (hd 0 close)) close.

(** A finite zero. *)
Definition is_zero (x : float) : bool :=
  match x with Fin q => Qeq_bool q 0 | _ => false end.

(** A finite value that is not negative. *)
Definition nonneg (x : float) : Prop :=
  match x with Fin q => 0 <= q | _ => False end.

(** What a rolling mean of such values can be. *)
Definition nan_or_nonneg (x : float) : Prop :=
  match x with Fin q => 0 <= q | NaN => True | _ => False end.

(** What the relative strength can be. *)
Definition rs_ok (x : float) : Prop :=
  match x with Fin q => 0 <= q | NaN | PInf => True | NInf => False end.

(** What an entry of the series [rsi] can be. *)
Definition osc_ok (x : float) : Prop :=
  match x with Fin q => 0 <= q <= 100 | NaN => True | _ => False end.

End IndicatorSpec.

(* ===================================================================== *)
(** ** Vocabulary for the statements about [fetch_snapshot] *)
(* ===================================================================== *)

Module SnapshotSpec.
Import Float Indicator Snapshot.
Local Open Scope string_scope.

(** The dict [snap] as it is created: every optional field unavailable. *)
Definition empty_snapshot (ticker : string) : snapshot :=
  {| s_ticker := ticker; s_last := None; s_chg_pct := None; s_rsi := None |}.

(** The part of the [try] block that follows the first download. *)
Definition after_intraday (df_1m : dataframe) : M unit :=
  when (nonempty df_1m) (
    let last_close := close_last (rows df_1m) in
    update (set_last (round2 (Fin last_close))) ;;;
    when (1 <? length (rows df_1m))%nat (
      let prev := close_prev (rows df_1m) in
      when (negb (Qeq_bool prev 0))
           (update (set_chg_pct (round2 (pct_change last_close prev)))))).

(** The last price and the change percent that the intraday closes give. *)
Definition last_of (closes : list Q) : option float :=
  match closes with
  | [] => None
  | _ => Some (Fin (Qround2 (close_last closes)))
  end.

Definition chg_pct_of (closes : list Q) : option float :=
  let last_close := close_last closes in
  let prev := close_prev closes in
  if (2 <=? length closes)%nat && negb (Qeq_bool prev 0)
  then Some (Fin (Qround2 ((last_close - prev) / prev * 100)%Q))
  else None.

(** Two providers for examples: one that answers the intraday request with
    the given closes and has no multi-day data, and one whose multi-day
    request times out. *)
Definition intraday_only (closes : list Q) : provider :=
  fun _ period _ =>
    if String.eqb period "1d" then Returns (Some closes) else Returns None.

Definition multiday_down (closes : list Q) : provider :=
  fun _ period _ =>
    if String.eqb period "1d" then Returns (Some closes)
    else Raises (Exn "timed out").

End SnapshotSpec.

(* ===================================================================== *)
(** ** Vocabulary for the statements about [build_message] *)
(* ===================================================================== *)

Module MessageSpec.
Import Snapshot.
Local Open Scope string_scope.



End MessageSpec.

(* ===================================================================== *)
(** ** Vocabulary for the statements about delivery and the pipeline *)
(* ===================================================================== *)

Module NotifierSpec.
Import Snapshot Notifier.
Local Open Scope string_scope.

(** A webhook that answers every request with the given status, and one
    that cannot be reached. *)
Definition answers (status : Z) : transport :=
  fun _ _ => Returns {| status_code := status; text := "" |}.

Definition unreachable : transport :=
  fun _ _ => Raises (Exn "connection refused").

(** A provider that fails for SPY and has two intraday closes and no
    multi-day data for every other symbol. *)
Definition spy_down : provider :=
  fun ticker period _ =>
    if String.eqb ticker "SPY" then Raises (Exn "no data")
    else if String.eqb period "1d" then Returns (Some [100; 105]%Q)
    else Returns None.

End NotifierSpec.

(* ===================================================================== *)
(** ** Vocabulary for the statements about the scheduler *)
(* ===================================================================== *)

Module SchedulerSpec.
Import Scheduler.
Local Open Scope Z_scope.

(** The settings [main] falls back to: 09:30 to 16:00, every 30 minutes
    for the first 150 minutes, then every [later] minutes. *)
Definition default_schedule (later : Z) : schedule :=
  {| open_h := 9; open_m := 30; close_h := 16; close_m := 0;
     early_int := 30; early_dur := 150; later_int := later |}.

(** A reading of [datetime.now(ET)] on the day with ordinal [day], on
    standard time. *)
Definition reading (day h m s : Z) : datetime :=
  {| ordinal := day;
     clock := {| hour := h; minute := m; second := s; microsecond := 0 |};
     tz := Localized false |}.

(** 2024-01-05, a Friday. *)
Definition friday : Z := 738890.

(** The same on daylight time, and 2024-07-05, a Friday in summer. *)
Definition reading_dst (day h m s : Z) : datetime :=
  {| ordinal := day;
     clock := {| hour := h; minute := m; second := s; microsecond := 0 |};
     tz := Localized true |}.

Definition summer_friday : Z := 739072.

(** The instant of a datetime: microseconds on the UTC scale. *)
Definition utc_micros (d : datetime) : Z :=
  ordinal d * 86400000000 + micros (clock d) - utcoffset (tz d) * 60000000.

(** The configured open on the day with ordinal [day], in Eastern time as
    it is in force that day. *)
Definition eastern_open (cfg : schedule) (day : Z) (dst : bool) : datetime :=
  {| ordinal := day; clock := MARKET_OPEN cfg; tz := Localized dst |}.

(** The seconds from the reading of [b] to the reading of [a], on
    calendar and clock. *)
Definition civil_seconds (a b : datetime) : Q :=
  (inject_Z (naive_micros a b) / 1000000)%Q.

End SchedulerSpec.

(* ===================================================================== *)
(** ** Vocabulary for further statements about the scheduler *)
(* ===================================================================== *)

Module ClockSpec.
Import Scheduler.
Local Open Scope Z_scope.

(** The field ranges that [datetime.time] enforces. *)
Definition valid_clock (t : time) : Prop :=
  0 <= hour t < 24 /\ 0 <= minute t < 60 /\ 0 <= second t < 60 /\
  0 <= microsecond t < 1000000.

(** [a] is earlier than [b] on the calendar and the clock. *)
Definition before (a b : datetime) : Prop :=
  ordinal a < ordinal b \/
  (ordinal a = ordinal b /\ time_gt (clock b) (clock a) = true).

(** How many days after the day with weekday [w] the market opens next. *)
Definition days_to_next_open (w : Z) : Z :=
  if w =? 4 then 3 else if w =? 5 then 2 else 1.

(** The same clock reading on another day. *)
Definition on_day (day : Z) (d : datetime) : datetime :=
  {| ordinal := day; clock := clock d; tz := tz d |}.

End ClockSpec.

(* ===================================================================== *)
(** ** Vocabulary for the statements about the settings *)
(* ===================================================================== *)

Module SettingsSpec.
Import Settings.
Local Open Scope string_scope.

(** [sep.join(parts)]. *)
Definition join (sep : ascii) (parts : list string) : string :=
  String.concat (String sep EmptyString) parts.

(** The character [sep] does not occur in [s]. *)
Fixpoint sep_free (sep : ascii) (s : string) : bool :=
  match s with
  | EmptyString => true
  | String c t => negb (Ascii.eqb c sep) && sep_free sep t
  end.

(** The value reached from [cur] by following the keys through nested
    dicts, if every key is there. *)
Fixpoint resolve (cur : yaml) (keys : list string) : option yaml :=
  match keys with
  | [] => Some cur
  | k :: rest =>
      match cur with
      | YDict items =>
          match get items k with
          | Some v => resolve v rest
          | None => None
          end
      | _ => None
      end
  end.

(** A dict with at least one key. *)
Definition has_keys (d : yaml) : bool :=
  match d with YDict (_ :: _) => true | _ => false end.

(** Every character is ASCII. *)
Fixpoint is_ascii (s : string) : bool :=
  match s with
  | EmptyString => true
  | String c t => (N_of_ascii c <? 128)%N && is_ascii t
  end.

(** [s] does not begin with white space. *)
Definition starts_clean (s : string) : Prop :=
  match s with
  | EmptyString => True
  | String c _ => is_space c = false
  end.

(** A ticker as [main] wants it: not empty, no white space around it, no
    lower-case letter, no comma. *)
Definition clean (t : string) : Prop :=
  t <> EmptyString /\ strip t = t /\ upper t = t /\ sep_free "," t = true.

End SettingsSpec.

(* ===================================================================== *)
(** ** Vocabulary for further statements about [compute_rsi] *)
(* ===================================================================== *)

Module RecentSpec.
Import Float Pandas Indicator IndicatorSpec.
Local Open Scope Q_scope.

(** The last [period] changes between consecutive closes. *)
Definition recent_changes (close : list Q) (period : nat) : list Q :=
  match close with
  | [] => []
  | c :: t => skipn (length t - period) (steps c t)
  end.

(** The last entry of [rsi], from the last [period] changes alone. *)
Definition last_entry (changes : list Q) : float :=
  oscillator (div (mean (map Fin (map up changes)))
                  (mean (map Fin (map down changes)))).

(** The last [n] closes. *)
Definition most_recent (n : nat) (close : list Q) : list Q :=
  skipn (length close - n) close.

(** Two values that are the same number: finite values may be written as
    different fractions. *)
Definition feq (x y : float) : Prop :=
  match x, y with
  | Fin a, Fin b => a == b
  | PInf, PInf | NInf, NInf | NaN, NaN => True
  | _, _ => False
  end.

(** The changes of a whole series. *)
Definition changes (close : list Q) : list Q :=
  match close with
  | [] => []
  | c :: t => steps c t
  end.

End RecentSpec.

(* ===================================================================== *)
(** * Properties *)
(* ===================================================================== *)

(** ** Facts about the numbers *)

Module FloatFacts.
Import Float.
Local Open Scope Q_scope.

Lemma Qltb_lt (a b : Q) : Qltb a b = true <-> a < b.
Proof.
  unfold Qltb. rewrite negb_true_iff.
  split; intro H.
  - apply Qnot_le_lt. intro L. apply Qle_bool_iff in L. congruence.
  - destruct (Qle_bool b a) eqn:E; [|reflexivity].
    apply Qle_bool_iff in E. exfalso. exact (Qlt_not_le _ _ H E).
Qed.

Lemma Qltb_ge (a b : Q) : Qltb a b = false <-> b <= a.
Proof.
  unfold Qltb. rewrite negb_false_iff. apply Qle_bool_iff.
Qed.

Lemma round_half_even_comp (p q : Q) :
  p == q -> round_half_even p = round_half_even q.
Proof.
  intro E. unfold round_half_even.
  rewrite (Qfloor_comp _ _ E).
  assert (C : (p - inject_Z (Qfloor q) ?= 1 # 2)
              = (q - inject_Z (Qfloor q) ?= 1 # 2))
    by (apply Qcompare_comp; [rewrite E|]; reflexivity).
  rewrite C. reflexivity.
Qed.

(** Rounding never leaves an interval with integer end points. *)
Lemma round_half_even_between (a b : Z) (q : Q) :
  inject_Z a <= q -> q <= inject_Z b ->
  (a <= round_half_even q <= b)%Z.
Proof.
  intros Ha Hb. unfold round_half_even.
  assert (Fa : (a <= Qfloor q)%Z)
    by (rewrite <- (Qfloor_Z a); apply Qfloor_resp_le; exact Ha).
  assert (Fb : (Qfloor q <= b)%Z)
    by (rewrite <- (Qfloor_Z b); apply Qfloor_resp_le; exact Hb).
  assert (Up : Qfloor q = b -> (q - inject_Z (Qfloor q) ?= 1 # 2) = Lt).
  { intro E. rewrite <- Qlt_alt. rewrite E. lra. }
  destruct (Z.eq_dec (Qfloor q) b) as [E | N].
  - rewrite (Up E). lia.
  - destruct (q - inject_Z (Qfloor q) ?= 1 # 2); [destruct (Z.even _)| |]; lia.
Qed.

Lemma Qround2_comp (p q : Q) : p == q -> Qround2 p = Qround2 q.
Proof.
  intro E. unfold Qround2.
  rewrite (round_half_even_comp (p * 100) (q * 100)) by (rewrite E; reflexivity).
  reflexivity.
Qed.

Lemma Qround2_between (q : Q) : 0 <= q <= 100 -> 0 <= Qround2 q <= 100.
Proof.
  intros [L U]. unfold Qround2. rewrite Qred_correct.
  destruct (round_half_even_between 0 10000 (q * 100)) as [A B].
  - change (inject_Z 0) with 0. lra.
  - change (inject_Z 10000) with 10000. lra.
  - rewrite Zle_Qle in A, B.
    change (inject_Z 0) with 0 in A. change (inject_Z 10000) with 10000 in B.
    split.
    + apply Qle_shift_div_l; lra.
    + apply Qle_shift_div_r; lra.
Qed.

End FloatFacts.

(** ** Facts about the series operations *)

Module PandasFacts.
Import Float Pandas.

Lemma zip_with_length f xs ys :
  length (zip_with f xs ys) = Nat.min (length xs) (length ys).
Proof.
  revert ys; induction xs as [|x xs IH]; intros [|y ys]; simpl; auto.
Qed.

Lemma zip_with_nth f xs ys i :
  (i < length xs)%nat -> (i < length ys)%nat ->
  nth i (zip_with f xs ys) NaN = f (nth i xs NaN) (nth i ys NaN).
Proof.
  revert ys i; induction xs as [|x xs IH]; intros [|y ys] [|i]; simpl;
    try lia; auto.
  intros; apply IH; lia.
Qed.

Lemma zip_with_Forall (P Q R : float -> Prop) f xs ys :
  (forall x y, P x -> Q y -> R (f x y)) ->
  Forall P xs -> Forall Q ys -> Forall R (zip_with f xs ys).
Proof.
  intros Hf Hx; revert ys; induction Hx as [|x xs Px Hx IH];
    intros ys Hy; simpl; [constructor|].
  destruct Hy as [|y ys Qy Hy]; constructor; auto.
Qed.

Lemma where_map (c : float -> bool) xs other :
  where_ xs (map c xs) other = map (fun x => if c x then x else other) xs.
Proof.
  induction xs as [|x xs IH]; simpl; [reflexivity|]. now rewrite IH.
Qed.

Lemma diff_from_length p xs : length (diff_from p xs) = length xs.
Proof.
  revert p; induction xs as [|x xs IH]; intros p; simpl; auto.
Qed.

Lemma diff_length xs : length (diff xs) = length xs.
Proof.
  destruct xs; simpl; [reflexivity|]. now rewrite diff_from_length.
Qed.

Lemma rolling_mean_length w xs : length (rolling_mean w xs) = length xs.
Proof.
  unfold rolling_mean. now rewrite length_map, length_seq.
Qed.

Lemma rolling_mean_nth w xs i :
  (i < length xs)%nat ->
  nth i (rolling_mean w xs) NaN =
  if (i + 1 <? w)%nat then NaN else mean (window_at w i xs).
Proof.
  intro Hi. unfold rolling_mean.
  set (g := fun i => if (i + 1 <? w)%nat then NaN else mean (window_at w i xs)).
  rewrite (nth_indep _ NaN (g 0%nat)) by (now rewrite length_map, length_seq).
  rewrite map_nth, seq_nth by assumption. reflexivity.
Qed.

Lemma Forall_firstn {A} (P : A -> Prop) n (l : list A) :
  Forall P l -> Forall P (firstn n l).
Proof.
  intro H; revert n; induction H; intros [|n]; simpl; constructor; auto.
Qed.

Lemma Forall_skipn {A} (P : A -> Prop) n (l : list A) :
  Forall P l -> Forall P (skipn n l).
Proof.
  intro H; revert n; induction H; intros [|n]; simpl; auto.
Qed.

Lemma Forall_window {A} (P : A -> Prop) w i (l : list A) :
  Forall P l -> Forall P (window_at w i l).
Proof.
  intro H. apply Forall_firstn, Forall_skipn, H.
Qed.

Lemma window_map {A B} (f : A -> B) w i (l : list A) :
  window_at w i (map f l) = map f (window_at w i l).
Proof.
  unfold window_at. now rewrite skipn_map, firstn_map.
Qed.

(** A complete window has exactly [w] entries. *)
Lemma window_length {A} w i (l : list A) :
  (w <= i + 1)%nat -> (i < length l)%nat -> length (window_at w i l) = w.
Proof.
  intros Hw Hi. unfold window_at. rewrite length_firstn, length_skipn. lia.
Qed.

(** The window that ends at [i] holds every entry from [i + 1 - w] to [i]. *)
Lemma In_window {A} w i j (l : list A) d :
  (i < length l)%nat -> (j <= i)%nat -> (i < j + w)%nat ->
  In (nth j l d) (window_at w i l).
Proof.
  intros Hi Hj Hw. unfold window_at.
  replace (nth j l d)
    with (nth (j - (i + 1 - w)) (firstn w (skipn (i + 1 - w) l)) d).
  - apply nth_In. rewrite length_firstn, length_skipn. lia.
  - rewrite nth_firstn.
    replace (j - (i + 1 - w) <? w)%nat with true
      by (symmetry; apply Nat.ltb_lt; lia).
    rewrite nth_skipn. f_equal. lia.
Qed.

Lemma rolling_mean_Forall (P R : float -> Prop) w xs :
  R NaN -> (forall ys, Forall P ys -> R (mean ys)) ->
  Forall P xs -> Forall R (rolling_mean w xs).
Proof.
  intros Hn Hm Hx. unfold rolling_mean. apply Forall_map, Forall_forall.
  intros i _. destruct (i + 1 <? w)%nat; [exact Hn|].
  apply Hm, Forall_window, Hx.
Qed.

Lemma last_In {A} (l : list A) d : l <> [] -> In (last l d) l.
Proof.
  induction l as [|x [|y l] IH]; intro H; [congruence|left; reflexivity|].
  right. apply IH. discriminate.
Qed.

Lemma last_nth {A} (l : list A) d : last l d = nth (length l - 1) l d.
Proof.
  induction l as [|x [|y l] IH]; try reflexivity.
  change (last (x :: y :: l) d) with (last (y :: l) d). rewrite IH.
  simpl. now rewrite Nat.sub_0_r.
Qed.

Lemma dropna_In x xs : In x (dropna xs) <-> In x xs /\ is_nan x = false.
Proof.
  unfold dropna. rewrite filter_In, negb_true_iff. reflexivity.
Qed.

Lemma dropna_all_nan xs : Forall (fun x => x = NaN) xs -> dropna xs = [].
Proof.
  induction 1 as [|x xs Hx _ IH]; simpl; [reflexivity|]. now subst.
Qed.

(** When the last entry is a number, [dropna] keeps it last. *)
Lemma dropna_last xs :
  xs <> [] -> is_nan (last xs NaN) = false ->
  dropna xs <> [] /\ last (dropna xs) NaN = last xs NaN.
Proof.
  induction xs as [|x [|y xs] IH]; intros Hne Hl; [congruence| |].
  - simpl in *. rewrite Hl. simpl. split; [discriminate|reflexivity].
  - change (last (x :: y :: xs) NaN) with (last (y :: xs) NaN) in *.
    destruct IH as [N L]; [discriminate|assumption|].
    change (dropna (x :: y :: xs))
      with (if negb (is_nan x) then x :: dropna (y :: xs) else dropna (y :: xs)).
    destruct (negb (is_nan x)); [|now split].
    split; [discriminate|].
    destruct (dropna (y :: xs)) eqn:E; [congruence|exact L].
Qed.

End PandasFacts.

(** ** IndicatorEngine *)

Module IndicatorFacts.
Import Float Pandas Indicator IndicatorSpec FloatFacts PandasFacts.
Local Open Scope Q_scope.

Lemma diff_from_fin p t : diff_from (Fin p) (map Fin t) = map Fin (steps p t).
Proof.
  revert p; induction t as [|x t IH]; intro p; simpl; [reflexivity|].
  now rewrite IH.
Qed.

Lemma gain_fin close : gain close = map Fin (gains close).
Proof.
  unfold gain, delta. rewrite where_map.
  destruct close as [|c t]; [reflexivity|].
  simpl. rewrite diff_from_fin, !map_map. f_equal.
  apply map_ext; intro d. unfold up; simpl. now destruct (Qltb 0 d).
Qed.

Lemma loss_fin close : loss close = map Fin (losses close).
Proof.
  unfold loss, delta. rewrite where_map.
  destruct close as [|c t]; [reflexivity|].
  simpl. rewrite diff_from_fin, !map_map. f_equal.
  apply map_ext; intro d. unfold down; simpl. now destruct (Qltb d 0).
Qed.

Lemma gains_length close : length (gains close) = length close.
Proof.
  destruct close as [|c t]; simpl; [reflexivity|].
  rewrite length_map. f_equal. revert c; induction t; intro c; simpl; auto.
Qed.

Lemma losses_length close : length (losses close) = length close.
Proof.
  destruct close as [|c t]; simpl; [reflexivity|].
  rewrite length_map. f_equal. revert c; induction t; intro c; simpl; auto.
Qed.

Lemma up_nonneg d : 0 <= up d.
Proof.
  unfold up. destruct (Qltb 0 d) eqn:E; [|lra].
  apply Qltb_lt in E. lra.
Qed.

Lemma down_nonneg d : 0 <= down d.
Proof.
  unfold down. destruct (Qltb d 0) eqn:E; [|lra].
  apply Qltb_lt in E. lra.
Qed.

Lemma gains_nonneg close : Forall (fun g => 0 <= g) (gains close).
Proof.
  destruct close as [|c t]; constructor; [lra|].
  apply Forall_map, Forall_forall. intros; apply up_nonneg.
Qed.

Lemma losses_nonneg close : Forall (fun l => 0 <= l) (losses close).
Proof.
  destruct close as [|c t]; constructor; [lra|].
  apply Forall_map, Forall_forall. intros; apply down_nonneg.
Qed.

Lemma sum_fin w : sum (map Fin w) = Fin (qsum w).
Proof.
  induction w as [|x w IH]; [reflexivity|].
  change (sum (map Fin (x :: w))) with (add (Fin x) (sum (map Fin w))).
  rewrite IH. reflexivity.
Qed.

Lemma qsum_nonneg w : Forall (fun x => 0 <= x) w -> 0 <= qsum w.
Proof.
  induction 1; simpl; lra.
Qed.

Lemma inject_nat_pos n : (0 < n)%nat -> 0 < inject_Z (Z.of_nat n).
Proof.
  intro H. change 0 with (inject_Z 0). rewrite <- Zlt_Qlt. lia.
Qed.

(** The mean of a non-empty window of finite values is their sum over
    their number; the mean of no value is [NaN]. *)
Lemma mean_fin w :
  mean (map Fin w) =
  match w with
  | [] => NaN
  | _ => Fin (qsum w / inject_Z (Z.of_nat (length w)))
  end.
Proof.
  unfold mean. rewrite sum_fin, length_map.
  destruct w as [|x w]; [reflexivity|].
  set (n := length (x :: w)).
  assert (P : 0 < inject_Z (Z.of_nat n)) by (apply inject_nat_pos; subst n; simpl; lia).
  simpl. destruct (Qeq_bool (inject_Z (Z.of_nat n)) 0) eqn:E; [|reflexivity].
  apply Qeq_bool_eq in E. lra.
Qed.

Lemma mean_nonneg w :
  Forall (fun x => 0 <= x) w -> nan_or_nonneg (mean (map Fin w)).
Proof.
  intro H. rewrite mean_fin. destruct w as [|x w]; [exact I|].
  unfold nan_or_nonneg. apply Qle_shift_div_l.
  - apply inject_nat_pos; simpl; lia.
  - apply qsum_nonneg in H. lra.
Qed.

Lemma rolling_mean_nonneg w qs :
  Forall (fun x => 0 <= x) qs ->
  Forall nan_or_nonneg (rolling_mean w (map Fin qs)).
Proof.
  intro H. unfold rolling_mean. apply Forall_map, Forall_forall.
  intros i _. destruct (i + 1 <? w)%nat; [exact I|].
  rewrite window_map. apply mean_nonneg, Forall_window, H.
Qed.

Lemma avg_gain_nonneg close period :
  Forall nan_or_nonneg (avg_gain close period).
Proof.
  unfold avg_gain. rewrite gain_fin.
  apply rolling_mean_nonneg, gains_nonneg.
Qed.

Lemma avg_loss_nonneg close period :
  Forall nan_or_nonneg (avg_loss close period).
Proof.
  unfold avg_loss. rewrite loss_fin.
  apply rolling_mean_nonneg, losses_nonneg.
Qed.

Lemma div_rs_ok a b : nan_or_nonneg a -> nan_or_nonneg b -> rs_ok (div a b).
Proof.
  destruct a as [a| | |], b as [b| | |]; simpl; try tauto.
  intros Ha Hb.
  destruct (Qeq_bool b 0) eqn:Eb.
  - destruct (Qeq_bool a 0) eqn:Ea; [exact I|].
    apply Qeq_bool_neq in Ea.
    replace (Qltb 0 a) with true; [exact I|].
    symmetry; apply Qltb_lt. lra.
  - apply Qeq_bool_neq in Eb. simpl.
    apply Qle_shift_div_l; lra.
Qed.

Lemma oscillator_fin q :
  0 <= q -> oscillator (Fin q) = Fin (100 + - (100 / (1 + q))).
Proof.
  intro H. unfold oscillator. simpl.
  destruct (Qeq_bool (1 + q) 0) eqn:E; [|reflexivity].
  apply Qeq_bool_eq in E. lra.
Qed.

Lemma oscillator_ok r : rs_ok r -> osc_ok (oscillator r).
Proof.
  destruct r as [q| | |]; simpl; try tauto.
  - intro H. rewrite (oscillator_fin q H). simpl.
    assert (A : 0 <= 100 / (1 + q)) by (apply Qle_shift_div_l; lra).
    assert (B : 100 / (1 + q) <= 100) by (apply Qle_shift_div_r; lra).
    lra.
  - intros _. vm_compute. split; discriminate.
Qed.

Lemma rs_all_ok close period : Forall rs_ok (rs close period).
Proof.
  unfold rs.
  apply (zip_with_Forall nan_or_nonneg nan_or_nonneg rs_ok);
    [exact div_rs_ok|apply avg_gain_nonneg|apply avg_loss_nonneg].
Qed.

Lemma rsi_all_ok close period : Forall osc_ok (rsi close period).
Proof.
  unfold rsi. apply Forall_map.
  eapply Forall_impl; [|apply rs_all_ok]. exact oscillator_ok.
Qed.

(** The series all have one entry per close. *)
Lemma gain_length close : length (gain close) = length close.
Proof. now rewrite gain_fin, length_map, gains_length. Qed.

Lemma loss_length close : length (loss close) = length close.
Proof. now rewrite loss_fin, length_map, losses_length. Qed.

Lemma rs_length close period : length (rs close period) = length close.
Proof.
  unfold rs, avg_gain, avg_loss.
  rewrite zip_with_length, !rolling_mean_length, gain_length, loss_length.
  lia.
Qed.

Lemma rsi_length close period : length (rsi close period) = length close.
Proof. unfold rsi. now rewrite length_map, rs_length. Qed.

(** [compute_rsi] returns the rounded last number of [rsi], if any. *)
Lemma compute_rsi_some close period v :
  compute_rsi close period = Some v ->
  exists x, In x (rsi close period) /\ is_nan x = false /\ v = round2 x.
Proof.
  unfold compute_rsi.
  destruct ((length close =? 0) || (length close <? period + 1))%nat;
    [discriminate|].
  cbv zeta.
  destruct (dropna (rsi close period)) as [|y l] eqn:E; [discriminate|].
  intro H; injection H as <-.
  assert (I : In (iloc_last (y :: l)) (dropna (rsi close period))).
  { rewrite E. apply last_In. discriminate. }
  apply dropna_In in I. destruct I as [I N].
  exists (iloc_last (y :: l)). auto.
Qed.

(** A returned value is finite. *)
Lemma compute_rsi_finite close period v :
  compute_rsi close period = Some v -> exists q, v = Fin q.
Proof.
  intro H. apply compute_rsi_some in H. destruct H as (x & I & N & ->).
  assert (O := proj1 (Forall_forall _ _) (rsi_all_ok close period) x I).
  destruct x as [q| | |]; simpl in *; try tauto; try discriminate.
  now exists (Qround2 q).
Qed.

(** C3.  Whenever [compute_rsi] returns a value, that value is a finite
    number between 0 and 100 inclusive. *)
Theorem compute_rsi_bounded close period v :
  compute_rsi close period = Some v ->
  exists q, v = Fin q /\ 0 <= q <= 100.
Proof.
  intro H. apply compute_rsi_some in H. destruct H as (x & I & N & ->).
  assert (O := proj1 (Forall_forall _ _) (rsi_all_ok close period) x I).
  destruct x as [q| | |]; simpl in *; try tauto; try discriminate.
  exists (Qround2 q). split; [reflexivity|]. apply Qround2_between, O.
Qed.

Lemma compute_rsi_bounded_witness :
  compute_rsi [1; 2; 3; 2; 5] 2 = Some (Fin 75) /\
  (exists q, Fin 75 = Fin q /\ 0 <= q <= 100).
Proof.
  split; [reflexivity|].
  apply (compute_rsi_bounded [1; 2; 3; 2; 5] 2). reflexivity.
Defined.

(** *** Constant series *)

Lemma steps_zero c t :
  Forall (fun x => x == c) t -> Forall (fun d => d == 0) (steps c t).
Proof.
  intro H; revert c H; induction t as [|x t IH]; intros c H; simpl;
    [constructor|].
  inversion H as [|? ? Hx Ht]; subst. constructor; [lra|].
  apply IH. eapply Forall_impl; [|exact Ht]. intros a Ha; simpl in Ha. lra.
Qed.

Lemma steps_zero_inv c t :
  Forall (fun d => d == 0) (steps c t) -> Forall (fun x => x == c) t.
Proof.
  revert c; induction t as [|x t IH]; intros c H; simpl in *; [constructor|].
  inversion H as [|? ? Hx Ht]; subst.
  assert (E : x == c) by lra.
  constructor; [exact E|].
  eapply Forall_impl; [|exact (IH x Ht)]. intros a Ha; simpl in Ha. lra.
Qed.

Lemma constantb_Forall c t :
  constantb (c :: t) = true <-> Forall (fun x => x == c) t.
Proof.
  unfold constantb. simpl. rewrite Qeq_bool_refl. simpl.
  rewrite forallb_forall, Forall_forall.
  split; intros H x Hx.
  - specialize (H x Hx). apply Qeq_bool_eq in H. lra.
  - apply Qeq_eq_bool. specialize (H x Hx). simpl in H. lra.
Qed.

Lemma up_zero d : d == 0 -> up d == 0.
Proof.
  intro E. unfold up. destruct (Qltb 0 d) eqn:L; [|reflexivity].
  apply Qltb_lt in L. lra.
Qed.

Lemma down_zero d : d == 0 -> down d == 0.
Proof.
  intro E. unfold down. destruct (Qltb d 0) eqn:L; [|reflexivity].
  apply Qltb_lt in L. lra.
Qed.

Lemma gains_constant close :
  constantb close = true -> Forall (fun g => g == 0) (gains close).
Proof.
  destruct close as [|c t]; intro H; [constructor|].
  apply constantb_Forall, steps_zero in H.
  constructor; [reflexivity|].
  apply Forall_map. eapply Forall_impl; [|exact H]. exact up_zero.
Qed.

Lemma losses_constant close :
  constantb close = true -> Forall (fun l => l == 0) (losses close).
Proof.
  destruct close as [|c t]; intro H; [constructor|].
  apply constantb_Forall, steps_zero in H.
  constructor; [reflexivity|].
  apply Forall_map. eapply Forall_impl; [|exact H]. exact down_zero.
Qed.

Lemma qsum_zero w : Forall (fun x => x == 0) w -> qsum w == 0.
Proof.
  induction 1 as [|x w Hx _ IH]; simpl; [reflexivity|]. lra.
Qed.

(** A finite zero or [NaN]: what a rolling mean of zeros can be. *)
Lemma rolling_mean_zero w qs :
  Forall (fun x => x == 0) qs ->
  Forall (fun x => x = NaN \/ is_zero x = true) (rolling_mean w (map Fin qs)).
Proof.
  intro H. unfold rolling_mean. apply Forall_map, Forall_forall.
  intros i _. destruct (i + 1 <? w)%nat; [now left|].
  rewrite window_map, mean_fin.
  assert (Z := qsum_zero _ (Forall_window _ w i _ H)).
  destruct (window_at w i qs) as [|x l]; [now left|].
  right. simpl. apply Qeq_eq_bool. rewrite Z. reflexivity.
Qed.

Lemma div_zero_zero a b :
  (a = NaN \/ is_zero a = true) -> (b = NaN \/ is_zero b = true) ->
  div a b = NaN.
Proof.
  intros [-> | Ha] [-> | Hb]; try reflexivity.
  - now destruct a.
  - destruct a as [a| | |], b as [b| | |]; try discriminate.
    simpl in *. now rewrite Ha, Hb.
Qed.

Lemma rsi_constant close period :
  constantb close = true -> Forall (fun x => x = NaN) (rsi close period).
Proof.
  intro H. unfold rsi. apply Forall_map.
  assert (R : Forall (fun x => x = NaN) (rs close period)).
  { unfold rs, avg_gain, avg_loss. rewrite gain_fin, loss_fin.
    eapply zip_with_Forall; [exact div_zero_zero| |];
      apply rolling_mean_zero; [apply gains_constant|apply losses_constant];
      exact H. }
  eapply Forall_impl; [|exact R]. intros x ->. reflexivity.
Qed.

(** C10.  On a series of at least [period + 1] closes that are all equal,
    every change is zero, every window has average gain and average loss
    zero, and [compute_rsi] returns [None] rather than a number. *)
Theorem compute_rsi_constant close period :
  (period + 1 <= length close)%nat ->
  constantb close = true ->
  compute_rsi close period = None.
Proof.
  intros _ H. unfold compute_rsi.
  destruct ((length close =? 0) || (length close <? period + 1))%nat;
    [reflexivity|].
  cbv zeta. now rewrite (dropna_all_nan _ (rsi_constant close period H)).
Qed.

Lemma compute_rsi_constant_witness :
  compute_rsi [7; 7; 7; 7; 7; 7; 7; 7; 7; 7; 7; 7; 7; 7; 7] 14 = None.
Proof.
  apply compute_rsi_constant; [simpl; lia|reflexivity].
Defined.

(** *** Saturation *)

Lemma div_pos_zero a b :
  gt0 a = true -> is_zero b = true -> div a b = PInf.
Proof.
  destruct a as [a| | |], b as [b| | |]; simpl; try discriminate.
  - intros Ha Hb. rewrite Hb.
    apply Qltb_lt in Ha.
    destruct (Qeq_bool a 0) eqn:E.
    + apply Qeq_bool_eq in E. lra.
    + apply Qltb_lt in Ha. now rewrite Ha.
  - intros _ Hb. apply Qeq_bool_eq in Hb.
    replace (Qltb b 0) with false; [reflexivity|].
    symmetry; apply Qltb_ge. lra.
Qed.

Lemma last_map_oscillator xs :
  last (map oscillator xs) NaN = oscillator (last xs NaN).
Proof.
  rewrite !last_nth, length_map.
  change NaN with (oscillator NaN) at 1. apply map_nth.
Qed.

Lemma last_rs close period :
  iloc_last (rs close period) =
  div (iloc_last (avg_gain close period)) (iloc_last (avg_loss close period)).
Proof.
  unfold iloc_last. rewrite !last_nth.
  rewrite rs_length. unfold avg_gain, avg_loss.
  rewrite !rolling_mean_length, gain_length, loss_length.
  destruct close as [|c t]; [reflexivity|].
  unfold rs, avg_gain, avg_loss.
  apply zip_with_nth;
    rewrite rolling_mean_length, ?gain_length, ?loss_length; simpl; lia.
Qed.

(** C1, as the code has it.  On a series of at least [period + 1] closes
    whose last window has average loss exactly zero and a positive average
    gain, the division does not raise and [compute_rsi] returns the
    saturation value 100. *)
Theorem compute_rsi_saturates close period :
  (period + 1 <= length close)%nat ->
  is_zero (iloc_last (avg_loss close period)) = true ->
  gt0 (iloc_last (avg_gain close period)) = true ->
  compute_rsi close period = Some (Fin 100).
Proof.
  intros Hlen Hl Hg.
  assert (R : iloc_last (rsi close period) = Fin (100 + - 0)).
  { unfold iloc_last, rsi. rewrite last_map_oscillator.
    fold (iloc_last (rs close period)).
    rewrite last_rs, (div_pos_zero _ _ Hg Hl). reflexivity. }
  assert (Ne : rsi close period <> []).
  { intro E. apply (f_equal (@length _)) in E.
    rewrite rsi_length in E. simpl in E. lia. }
  destruct (dropna_last (rsi close period) Ne) as [D L].
  { fold (iloc_last (rsi close period)). now rewrite R. }
  unfold compute_rsi.
  replace ((length close =? 0) || (length close <? period + 1))%nat with false.
  - cbv zeta. destruct (dropna (rsi close period)) as [|y l] eqn:E;
      [congruence|].
    unfold iloc_last at 1. rewrite L.
    fold (iloc_last (rsi close period)). rewrite R. reflexivity.
  - symmetry. apply orb_false_iff. split;
      [apply Nat.eqb_neq|apply Nat.ltb_ge]; lia.
Qed.

Lemma compute_rsi_saturates_witness :
  compute_rsi [10; 11; 11; 13] 2 = Some (Fin 100).
Proof.
  apply compute_rsi_saturates; try reflexivity. simpl; lia.
Defined.

(** C1 as stated fails: three equal closes with [period = 2] have a last
    window of average loss zero, and the result is [None], not 100. *)
Lemma compute_rsi_zero_loss_counterexample :
  (2 + 1 <= length [3; 3; 3])%nat /\
  is_zero (iloc_last (avg_loss [3; 3; 3] 2)) = true /\
  compute_rsi [3; 3; 3] 2 = None /\
  compute_rsi [3; 3; 3] 2 <> Some (Fin 100).
Proof.
  split; [simpl; lia|]. split; [reflexivity|].
  split; [reflexivity|discriminate].
Qed.

(** The same happens after a fall: the flat last window is dropped and the
    number of the window before it is returned. *)
Example compute_rsi_flat_after_fall :
  is_zero (iloc_last (avg_loss [9; 8; 8; 8] 2)) = true /\
  compute_rsi [9; 8; 8; 8] 2 = Some (Fin 0).
Proof. split; reflexivity. Qed.

(** *** When a value is available *)

Lemma compute_rsi_short close period :
  (length close < period + 1)%nat -> compute_rsi close period = None.
Proof.
  intro H. unfold compute_rsi.
  replace (length close <? period + 1)%nat with true
    by (symmetry; apply Nat.ltb_lt; exact H).
  now rewrite orb_true_r.
Qed.

Lemma nth_map_lt {A B} (f : A -> B) l k d d' :
  (k < length l)%nat -> nth k (map f l) d' = f (nth k l d).
Proof.
  intro H. rewrite (nth_indep _ d' (f d)) by (now rewrite length_map).
  apply map_nth.
Qed.

Lemma steps_length c t : length (steps c t) = length t.
Proof.
  revert c; induction t as [|x t IH]; intro c; simpl; auto.
Qed.

Lemma qsum_pos w x :
  Forall (fun y => 0 <= y) w -> In x w -> 0 < x -> 0 < qsum w.
Proof.
  intros H; revert x; induction H as [|y w Hy Hw IH]; intros x I P;
    [contradiction|].
  simpl. apply qsum_nonneg in Hw as S.
  destruct I as [-> | I]; [lra|]. specialize (IH x I P). lra.
Qed.

Lemma mean_defined w : w <> [] -> is_nan (mean (map Fin w)) = false.
Proof.
  intro H. rewrite mean_fin. destruct w; [congruence|reflexivity].
Qed.

Lemma mean_pos w x :
  Forall (fun y => 0 <= y) w -> In x w -> 0 < x ->
  gt0 (mean (map Fin w)) = true.
Proof.
  intros H I P. rewrite mean_fin.
  destruct w as [|y w]; [contradiction|].
  unfold gt0. apply Qltb_lt. apply Qlt_shift_div_l.
  - apply inject_nat_pos; simpl; lia.
  - apply (qsum_pos _ x H I) in P. lra.
Qed.

Lemma div_defined a b :
  nan_or_nonneg a -> nan_or_nonneg b ->
  is_nan a = false -> is_nan b = false ->
  gt0 a = true \/ gt0 b = true ->
  is_nan (div a b) = false.
Proof.
  destruct a as [a| | |], b as [b| | |]; simpl; try tauto; try discriminate.
  intros Ha Hb _ _ P.
  destruct (Qeq_bool b 0) eqn:Eb; [|reflexivity].
  apply Qeq_bool_eq in Eb.
  destruct P as [P | P]; apply Qltb_lt in P; [|lra].
  destruct (Qeq_bool a 0) eqn:Ea; [apply Qeq_bool_eq in Ea; lra|].
  now destruct (Qltb 0 a).
Qed.

Lemma oscillator_defined r :
  rs_ok r -> is_nan r = false -> is_nan (oscillator r) = false.
Proof.
  destruct r as [q| | |]; simpl; try tauto; try discriminate.
  intros H _. now rewrite (oscillator_fin q H).
Qed.

(** A change that is not zero is a rise or a fall. *)
Lemma up_or_down d : ~ d == 0 -> 0 < up d \/ 0 < down d.
Proof.
  intro N. unfold up, down.
  destruct (Qltb 0 d) eqn:U.
  - left. now apply Qltb_lt in U.
  - right. apply Qltb_ge in U.
    replace (Qltb d 0) with true; [lra|].
    symmetry; apply Qltb_lt. lra.
Qed.

(** A series that is not constant has a change that is not zero. *)
Lemma nonconstant_step c t :
  constantb (c :: t) = false ->
  exists k, (k < length t)%nat /\ ~ nth k (steps c t) 0 == 0.
Proof.
  intro H.
  assert (N : ~ Forall (fun d => d == 0) (steps c t)).
  { intro F. apply steps_zero_inv, constantb_Forall in F. congruence. }
  apply neg_Forall_Exists_neg in N; [|intro d; apply Qeq_dec].
  apply Exists_exists in N. destruct N as (d & I & Nd).
  destruct (In_nth _ _ 0 I) as (k & Hk & E).
  exists k. rewrite steps_length in Hk. split; [exact Hk|]. now rewrite E.
Qed.

(** The entry of [rsi] at a complete window with a rise or a fall in it is
    a number. *)
Lemma rsi_defined_at close period i j :
  (1 <= period)%nat -> (i < length close)%nat -> (period <= i + 1)%nat ->
  (j <= i)%nat -> (i < j + period)%nat ->
  0 < nth j (gains close) 0 \/ 0 < nth j (losses close) 0 ->
  is_nan (nth i (rsi close period) NaN) = false.
Proof.
  intros Hp Hi Hw Hj Hjw P.
  unfold rsi. change NaN with (oscillator NaN) at 1. rewrite map_nth.
  assert (Lg : (i < length (gains close))%nat) by now rewrite gains_length.
  assert (Ll : (i < length (losses close))%nat) by now rewrite losses_length.
  assert (Eg : nth i (avg_gain close period) NaN
               = mean (map Fin (window_at period i (gains close)))).
  { unfold avg_gain. rewrite gain_fin, rolling_mean_nth
      by (now rewrite length_map).
    replace (i + 1 <? period)%nat with false
      by (symmetry; apply Nat.ltb_ge; lia).
    now rewrite window_map. }
  assert (El : nth i (avg_loss close period) NaN
               = mean (map Fin (window_at period i (losses close)))).
  { unfold avg_loss. rewrite loss_fin, rolling_mean_nth
      by (now rewrite length_map).
    replace (i + 1 <? period)%nat with false
      by (symmetry; apply Nat.ltb_ge; lia).
    now rewrite window_map. }
  assert (Ng : window_at period i (gains close) <> []).
  { intro E. apply (f_equal (@length _)) in E.
    rewrite window_length in E by lia. simpl in E. lia. }
  assert (Nl : window_at period i (losses close) <> []).
  { intro E. apply (f_equal (@length _)) in E.
    rewrite window_length in E by lia. simpl in E. lia. }
  assert (R : nth i (rs close period) NaN
              = div (nth i (avg_gain close period) NaN)
                    (nth i (avg_loss close period) NaN)).
  { unfold rs. apply zip_with_nth; unfold avg_gain, avg_loss;
      rewrite rolling_mean_length, ?gain_length, ?loss_length; exact Hi. }
  apply oscillator_defined.
  - eapply Forall_forall; [apply rs_all_ok|].
    apply nth_In. now rewrite rs_length.
  - rewrite R, Eg, El. apply div_defined.
    + apply mean_nonneg, Forall_window, gains_nonneg.
    + apply mean_nonneg, Forall_window, losses_nonneg.
    + now apply mean_defined.
    + now apply mean_defined.
    + destruct P as [P | P]; [left | right];
        (eapply mean_pos; [apply Forall_window| |exact P]);
        [apply gains_nonneg|apply In_window; lia
        |apply losses_nonneg|apply In_window; lia].
Qed.

(** C2, as the code has it.  [compute_rsi] returns [None] for every series
    shorter than [period + 1] closes; for a window of at least one close
    and a series of at least [period + 1] closes that are not all equal it
    returns a number.  With [period = 14] a 14-point series yields [None]
    and a 15-point series with two different closes yields a number. *)
Theorem compute_rsi_availability close period :
  ((length close < period + 1)%nat -> compute_rsi close period = None) /\
  ((1 <= period)%nat -> (period + 1 <= length close)%nat ->
   constantb close = false ->
   exists q, compute_rsi close period = Some (Fin q)).
Proof.
  split; [apply compute_rsi_short|].
  intros Hp Hlen Hc.
  destruct close as [|c t]; [simpl in Hlen; lia|].
  destruct (nonconstant_step c t Hc) as (k & Hk & Nk).
  set (i := Nat.max (S k) (period - 1)).
  assert (Hi : (i < length (c :: t))%nat)
    by (subst i; cbn [length] in *; lia).
  set (close := c :: t) in *.
  assert (D : is_nan (nth i (rsi close period) NaN) = false).
  { apply (rsi_defined_at close period i (S k)); try (subst i; lia).
    subst close. simpl.
    rewrite !(nth_map_lt _ _ _ 0) by (now rewrite steps_length).
    now apply up_or_down. }
  assert (I : In (nth i (rsi close period) NaN) (dropna (rsi close period))).
  { apply dropna_In. split; [|exact D].
    apply nth_In. now rewrite rsi_length. }
  destruct (compute_rsi close period) as [v|] eqn:E.
  - destruct (compute_rsi_finite close period v E) as (q & ->).
    now exists q.
  - exfalso. unfold compute_rsi in E.
    replace ((length close =? 0) || (length close <? period + 1))%nat
      with false in E
      by (symmetry; apply orb_false_iff; split;
          [apply Nat.eqb_neq|apply Nat.ltb_ge]; lia).
    cbv zeta in E.
    destruct (dropna (rsi close period)); [contradiction|discriminate].
Qed.

Lemma compute_rsi_availability_witness :
  compute_rsi [1; 2; 3; 4; 5; 6; 7; 8; 9; 10; 11; 12; 13; 12] 14 = None /\
  (exists q,
     compute_rsi [1; 2; 3; 4; 5; 6; 7; 8; 9; 10; 11; 12; 13; 12; 14] 14
     = Some (Fin q)).
Proof.
  split.
  - apply (proj1 (compute_rsi_availability
                    [1; 2; 3; 4; 5; 6; 7; 8; 9; 10; 11; 12; 13; 12] 14)).
    simpl; lia.
  - apply (proj2 (compute_rsi_availability
                    [1; 2; 3; 4; 5; 6; 7; 8; 9; 10; 11; 12; 13; 12; 14] 14)).
    + lia.
    + simpl; lia.
    + reflexivity.
Defined.

(** A window of no observation has no mean: with [period = 0] nothing is
    returned either. *)
Example compute_rsi_zero_period : compute_rsi [1; 2; 3] 0 = None.
Proof. reflexivity. Qed.

(** C2 as stated fails: fifteen equal closes are [period + 1] observations
    for [period = 14], and the result is [None]. *)
Lemma compute_rsi_fifteen_equal_counterexample :
  (14 + 1 <= length [4; 4; 4; 4; 4; 4; 4; 4; 4; 4; 4; 4; 4; 4; 4])%nat /\
  compute_rsi [4; 4; 4; 4; 4; 4; 4; 4; 4; 4; 4; 4; 4; 4; 4] 14 = None.
Proof.
  split; [simpl; lia|reflexivity].
Qed.

End IndicatorFacts.

(** ** SnapshotFetcher *)

Module SnapshotFacts.
Import Float Indicator Snapshot SnapshotSpec FloatFacts.
Local Open Scope string_scope.

Lemma pct_change_fin l p :
  Qeq_bool p 0 = false ->
  pct_change l p = Fin (((l + - p) / p) * 100)%Q.
Proof.
  intro H. unfold pct_change. simpl. now rewrite H.
Qed.

Lemma after_intraday_spec df ticker :
  after_intraday df (empty_snapshot ticker) =
  ({| s_ticker := ticker; s_last := last_of (rows df);
      s_chg_pct := chg_pct_of (rows df); s_rsi := None |}, Returns tt).
Proof.
  unfold after_intraday, nonempty, chg_pct_of, last_of.
  destruct (rows df) as [|x [|y l]] eqn:E; try reflexivity.
  set (closes := x :: y :: l).
  change (length closes =? 0)%nat with false.
  change (1 <? length closes)%nat with true.
  change (2 <=? length closes)%nat with true.
  unfold when, bind, update, ret, set_last, set_chg_pct. simpl negb at 1.
  cbv iota beta. simpl andb.
  destruct (Qeq_bool (close_prev closes) 0) eqn:P; simpl negb; cbv iota.
  - reflexivity.
  - rewrite (pct_change_fin _ _ P). reflexivity.
Qed.

Lemma try_body_eq download ticker :
  try_body download ticker =
  bind (call (download ticker "1d" "1m")) (fun df_1m =>
  bind (after_intraday df_1m) (fun _ =>
  bind (call (download ticker "7d" "15m")) (fun df_15m =>
  when (nonempty df_15m)
       (update (set_rsi (compute_rsi (rows df_15m) 14)))))).
Proof. reflexivity. Qed.

(** What [fetch_snapshot] returns, by the outcome of the two downloads. *)
Lemma fetch_snapshot_cases download ticker n :
  fetch_snapshot download ticker n =
  match download ticker "1d" "1m" with
  | Raises _ => empty_snapshot ticker
  | Returns df_1m =>
      {| s_ticker := ticker;
         s_last := last_of (rows df_1m);
         s_chg_pct := chg_pct_of (rows df_1m);
         s_rsi :=
           match download ticker "7d" "15m" with
           | Raises _ => None
           | Returns df_15m =>
               if nonempty df_15m then compute_rsi (rows df_15m) 14 else None
           end |}
  end.
Proof.
  unfold fetch_snapshot. fold (empty_snapshot ticker).
  rewrite try_body_eq. unfold bind at 1, call at 1.
  destruct (download ticker "1d" "1m") as [df|e]; [|reflexivity].
  unfold bind at 1. rewrite after_intraday_spec.
  unfold bind, call.
  destruct (download ticker "7d" "15m") as [df2|e]; [|reflexivity].
  unfold when. destruct (nonempty df2); reflexivity.
Qed.

(** C7, as the code has it.  The last price is the most recent intraday
    close rounded to 2 decimals.  The change percent is (latest close -
    previous close) / previous close * 100 rounded to 2 decimals when the
    series has at least 2 points and the previous close is not zero, and
    is unavailable otherwise.  Closes [100.0, 105.0] give 5.00 and a
    single close gives unavailable. *)
Theorem fetch_snapshot_intraday download ticker n df :
  download ticker "1d" "1m" = Returns df ->
  let closes := rows df in
  let last_close := close_last closes in
  let prev := close_prev closes in
  let snap := fetch_snapshot download ticker n in
  (closes <> [] -> s_last snap = Some (Fin (Qround2 last_close))) /\
  (closes = [] -> s_last snap = None) /\
  ((2 <= length closes)%nat -> ~ (prev == 0)%Q ->
   s_chg_pct snap = Some (Fin (Qround2 ((last_close - prev) / prev * 100)%Q))) /\
  ((length closes < 2)%nat \/ (prev == 0)%Q -> s_chg_pct snap = None) /\
  (closes = [100; 105]%Q -> s_chg_pct snap = Some (Fin 5)) /\
  (closes = [100]%Q -> s_chg_pct snap = None).
Proof.
  intros H closes last_close prev snap.
  assert (L : s_last snap = last_of closes)
    by (subst snap; rewrite fetch_snapshot_cases, H; reflexivity).
  assert (C : s_chg_pct snap = chg_pct_of closes)
    by (subst snap; rewrite fetch_snapshot_cases, H; reflexivity).
  rewrite L, C. clear L C. unfold last_of, chg_pct_of.
  fold last_close prev.
  repeat split.
  - intro N. destruct closes; [congruence|reflexivity].
  - now intros ->.
  - intros Hl Hp.
    replace (2 <=? length closes)%nat with true
      by (symmetry; apply Nat.leb_le; exact Hl).
    destruct (Qeq_bool prev 0) eqn:E; [|reflexivity].
    apply Qeq_bool_eq in E. contradiction.
  - intros [Hl | Hp].
    + replace (2 <=? length closes)%nat with false
        by (symmetry; apply Nat.leb_gt; exact Hl).
      reflexivity.
    + rewrite (Qeq_eq_bool _ _ Hp). now rewrite andb_false_r.
  - subst last_close prev. now intros ->.
  - subst last_close prev. now intros ->.
Qed.

Lemma fetch_snapshot_intraday_witness :
  s_last (fetch_snapshot (intraday_only [100; 105]%Q) "SPY" 3)
    = Some (Fin 105) /\
  s_chg_pct (fetch_snapshot (intraday_only [100; 105]%Q) "SPY" 3)
    = Some (Fin 5).
Proof.
  destruct (fetch_snapshot_intraday (intraday_only [100; 105]%Q) "SPY" 3
              (Some [100; 105]%Q) eq_refl) as (L & _ & _ & _ & C & _).
  split; [apply L; discriminate|apply C; reflexivity].
Defined.

(** C7 as stated fails on the last price: a close of 100.123 is stored as
    100.12, which is not the most recent close. *)
Lemma fetch_snapshot_last_counterexample :
  s_last (fetch_snapshot (intraday_only [100123 # 1000]) "SPY" 3)
    = Some (Fin (2503 # 25)) /\
  ~ (2503 # 25 == 100123 # 1000)%Q.
Proof.
  split; [reflexivity|]. intro H. vm_compute in H. discriminate.
Qed.

End SnapshotFacts.

(** ** MessageFormatter *)

Module MessageFacts.
Import Float Snapshot SnapshotSpec Message MessageSpec.
Local Open Scope string_scope.

Lemma loop_appends (f : snapshot -> string) snaps lines :
  fold_left (fun lines s => append lines (f s)) snaps lines
  = (lines ++ map f snaps)%list.
Proof.
  revert lines; induction snaps as [|s snaps IH]; intro lines; simpl.
  - now rewrite app_nil_r.
  - rewrite IH. unfold append. now rewrite <- app_assoc.
Qed.

Lemma message_lines_eq generated_at snaps :
  message_lines generated_at snaps
  = (header generated_at ++ map row snaps ++ ["```"])%list.
Proof.
  unfold message_lines. rewrite loop_appends. unfold append.
  now rewrite <- app_assoc.
Qed.







End MessageFacts.

(** ** Notifier and pipeline *)

Module NotifierFacts.
Import Float Snapshot SnapshotSpec Message Notifier NotifierSpec.
Import SnapshotFacts MessageFacts.
Local Open Scope string_scope.

(** C9.  [post_discord] returns [true] exactly when the response status
    is in the 2xx range; on any other status and on a transport exception
    it returns [false].  Nothing is raised: [run_once] completes and
    reports that result. *)
Theorem post_discord_status post webhook content :
  (forall r, post webhook content = Returns r ->
     (post_discord post webhook content = true
      <-> (200 <= status_code r < 300)%Z)) /\
  (forall e, post webhook content = Raises e ->
     post_discord post webhook content = false) /\
  (forall download generated_at tickers n,
     let r := run_once download post generated_at tickers webhook n in
     ok r = post_discord post webhook (msg r)).
Proof.
  split; [|split].
  - intros r H. unfold post_discord. rewrite H.
    destruct (200 <=? status_code r)%Z eqn:A;
      destruct (status_code r <? 300)%Z eqn:B; simpl;
      rewrite ?Z.leb_le, ?Z.leb_gt, ?Z.ltb_lt, ?Z.ltb_ge in *;
      split; intro; try lia; try discriminate; reflexivity.
  - intros e H. unfold post_discord. now rewrite H.
  - reflexivity.
Qed.

Lemma post_discord_status_witness :
  post_discord (answers 204) "https://hook" "hello" = true /\
  post_discord (answers 404) "https://hook" "hello" <> true /\
  post_discord unreachable "https://hook" "hello" = false.
Proof.
  destruct (post_discord_status (answers 204) "https://hook" "hello")
    as (A & _ & _).
  destruct (post_discord_status (answers 404) "https://hook" "hello")
    as (B & _ & _).
  destruct (post_discord_status unreachable "https://hook" "hello")
    as (_ & C & _).
  split; [|split].
  - apply (A _ eq_refl). simpl. lia.
  - intro H. apply (B _ eq_refl) in H. simpl in H. lia.
  - apply (C (Exn "connection refused")). reflexivity.
Defined.

(** C4, as the code has it.  A failing provider call never escapes
    [fetch_snapshot].  When the intraday call fails, all three optional
    fields are unavailable; when the multi-day call fails, the oscillator
    is unavailable and the last price and change percent are those of the
    intraday closes.  A snapshot depends on the provider's answers for its
    own symbol only, and [run_once] renders the snapshots of all symbols,
    in order, into the message. *)
Theorem provider_failure_contained download ticker n :
  (forall e, download ticker "1d" "1m" = Raises e ->
     fetch_snapshot download ticker n = empty_snapshot ticker) /\
  (forall df e,
     download ticker "1d" "1m" = Returns df ->
     download ticker "7d" "15m" = Raises e ->
     fetch_snapshot download ticker n
     = {| s_ticker := ticker; s_last := last_of (rows df);
          s_chg_pct := chg_pct_of (rows df); s_rsi := None |}) /\
  (forall download',
     (forall period interval,
        download' ticker period interval = download ticker period interval) ->
     fetch_snapshot download' ticker n = fetch_snapshot download ticker n) /\
  (forall post generated_at tickers webhook,
     let r := run_once download post generated_at tickers webhook n in
     snaps r = map (fun t => fetch_snapshot download t n) tickers /\
     msg r = String.concat newline
               (header generated_at ++ map row (snaps r) ++ ["```"])%list).
Proof.
  split; [|split; [|split]].
  - intros e H. now rewrite fetch_snapshot_cases, H.
  - intros df e H1 H2. now rewrite fetch_snapshot_cases, H1, H2.
  - intros download' H. now rewrite !fetch_snapshot_cases, !H.
  - intros post generated_at tickers webhook r. split; [reflexivity|].
    subst r. unfold run_once, msg, build_message.
    now rewrite message_lines_eq.
Qed.

Lemma provider_failure_contained_witness :
  fetch_snapshot spy_down "SPY" 3 = empty_snapshot "SPY" /\
  map row (snaps (run_once spy_down unreachable "2024-01-05 10:00:00"
                    ["SPY"; "QQQ"] "https://hook" 3))
  = ["SPY            n/a     n/a      n/a";
     "QQQ         105.00    5.00      n/a"].
Proof.
  destruct (provider_failure_contained spy_down "SPY" 3) as (A & _ & _ & D).
  split.
  - apply (A (Exn "no data")). reflexivity.
  - rewrite (proj1 (D unreachable "2024-01-05 10:00:00" ["SPY"; "QQQ"]
                      "https://hook")).
    reflexivity.
Defined.

(** C4 as stated fails when only the multi-day call fails: the last price
    and the change percent are not unavailable. *)
Lemma provider_failure_counterexample :
  multiday_down [100; 105]%Q "SPY" "7d" "15m" = Raises (Exn "timed out") /\
  fetch_snapshot (multiday_down [100; 105]%Q) "SPY" 3
  = {| s_ticker := "SPY"; s_last := Some (Fin 105);
       s_chg_pct := Some (Fin 5); s_rsi := None |} /\
  fetch_snapshot (multiday_down [100; 105]%Q) "SPY" 3 <> empty_snapshot "SPY".
Proof.
  split; [reflexivity|]. split; [reflexivity|]. discriminate.
Qed.

End NotifierFacts.

(** ** MarketScheduler *)

Module SchedulerFacts.
Import Scheduler SchedulerSpec.
Local Open Scope Z_scope.

Lemma skip_weekend_step d :
  skip_weekend d
  = if 5 <=? weekday d then skip_weekend (add_days d 1) else d.
Proof.
  rewrite skip_weekend_equation_1 at 1.
  destruct (Z_le_dec 5 (weekday d)) as [L | N]; simpl.
  - now replace (5 <=? weekday d) with true by (symmetry; apply Z.leb_le; lia).
  - now replace (5 <=? weekday d) with false by (symmetry; apply Z.leb_gt; lia).
Qed.

Lemma weekday_range d : 0 <= weekday d < 7.
Proof. unfold weekday. apply Z.mod_pos_bound. lia. Qed.

Lemma weekday_add_days d n :
  weekday (add_days d n) = (weekday d + n) mod 7.
Proof.
  unfold weekday, add_days. simpl.
  rewrite Z.add_mod_idemp_l by lia. f_equal. lia.
Qed.

(** The loop stops, and it stops on a working day. *)
Lemma skip_weekend_working_day d : weekday (skip_weekend d) < 5.
Proof.
  funelim (skip_weekend d).
  - assumption.
  - lia.
Qed.

(** From a Saturday the loop runs twice and stops on the Monday. *)
Lemma skip_weekend_saturday d :
  weekday d = 5 -> skip_weekend d = add_days d 2.
Proof.
  intro H.
  rewrite skip_weekend_step, H. simpl.
  assert (H1 : weekday (add_days d 1) = 6)
    by (rewrite weekday_add_days, H; reflexivity).
  rewrite skip_weekend_step, H1. simpl.
  assert (H2 : weekday (add_days (add_days d 1) 1) = 0)
    by (rewrite weekday_add_days, H1; reflexivity).
  rewrite skip_weekend_step, H2. simpl.
  unfold add_days. simpl. f_equal. lia.
Qed.

Lemma time_le_gt a b : time_gt a b = true -> time_le a b = false.
Proof.
  unfold time_gt, time_le. now destruct (time_compare a b).
Qed.

Lemma tick_after_close cfg now :
  time_gt (time_of now) (MARKET_CLOSE cfg) = true ->
  tick cfg now
  = SleepUntil (replace_tz (skip_weekend (add_days now 1))
                  (open_h cfg) (open_m cfg)).
Proof.
  intro Hc. unfold tick.
  change (time_of (replace now (hour (MARKET_CLOSE cfg))
                     (minute (MARKET_CLOSE cfg))))
    with (MARKET_CLOSE cfg).
  now rewrite (time_le_gt _ _ Hc), andb_false_r, Hc.
Qed.

(** A datetime that reads the open time with the zone object attached is
    not the open in Eastern time: it is 4 minutes before the open on
    standard time and 56 minutes after the open on daylight time. *)
Lemma zone_open_instant cfg d dst :
  tz d = Zone -> clock d = MARKET_OPEN cfg ->
  utc_micros d - utc_micros (eastern_open cfg (ordinal d) dst)
  = (if dst then 56 else -4) * 60000000.
Proof.
  intros T C. unfold utc_micros, eastern_open. simpl. rewrite T, C.
  destruct dst; simpl; lia.
Qed.

(** The sleep computed from such a datetime and a localized reading is
    the time between the two readings less 240 seconds on standard time,
    plus 3360 seconds on daylight time. *)
Lemma sleep_secs_zone a b dst :
  tz a = Zone -> tz b = Localized dst ->
  (sleep_secs a b
   == civil_seconds a b + (if dst then 3360 else -240))%Q.
Proof.
  intros Ta Tb. unfold sleep_secs, civil_seconds. rewrite Ta, Tb.
  simpl same_tzinfo. cbv iota.
  set (n := naive_micros a b).
  destruct dst; simpl utcoffset; unfold Z.sub; rewrite inject_Z_plus;
    [change (inject_Z (- ((-296 + - -240) * 60000000)))
       with (3360 * 1000000)%Q
    |change (inject_Z (- ((-296 + - -300) * 60000000)))
       with (-240 * 1000000)%Q];
    field.
Qed.

(** Before the open the sleep is exactly the time to today's open: that
    datetime keeps the [tzinfo] of the reading. *)
Lemma sleep_before_open_exact cfg now next_open :
  tick cfg now = SleepUntil next_open ->
  time_gt (time_of now) (MARKET_CLOSE cfg) = false ->
  (sleep_secs next_open now == civil_seconds next_open now)%Q.
Proof.
  unfold tick. intros H C.
  change (time_of (replace now (hour (MARKET_CLOSE cfg))
                     (minute (MARKET_CLOSE cfg))))
    with (MARKET_CLOSE cfg) in H.
  rewrite C in H.
  destruct (time_le _ _ && time_le _ _); [discriminate|].
  injection H as <-. unfold sleep_secs, civil_seconds. simpl tz.
  replace (same_tzinfo (tz now) (tz now)) with true; [reflexivity|].
  destruct (tz now) as [[]|]; reflexivity.
Qed.

(** C5.  What the code computes when the clock reads a Friday past
    today's close.  The next open is dated three days later, a Monday,
    and reads the configured open time: the Saturday and the Sunday in
    between are skipped.  But it carries the zone object itself, so its
    instant is not the configured open in Eastern time, whichever offset
    is in force that Monday: it lies 4 minutes before the open on
    standard time and 56 minutes after it on daylight time, and the sleep
    is 240 seconds short, or 3360 seconds long, accordingly. *)
Theorem next_open_after_friday_close cfg now :
  weekday now = 4 ->
  time_gt (time_of now) (MARKET_CLOSE cfg) = true ->
  exists next_open,
    tick cfg now = SleepUntil next_open /\
    ordinal next_open = ordinal now + 3 /\
    weekday (add_days now 1) = 5 /\
    weekday (add_days now 2) = 6 /\
    weekday next_open = 0 /\
    time_of next_open = MARKET_OPEN cfg /\
    tz next_open = Zone /\
    (forall dst,
       utc_micros next_open
       - utc_micros (eastern_open cfg (ordinal now + 3) dst)
       = (if dst then 56 else -4) * 60000000) /\
    (forall dst, tz now = Localized dst ->
       (sleep_secs next_open now
        == civil_seconds next_open now + (if dst then 3360 else -240))%Q).
Proof.
  intros Hf Hc.
  assert (Sat : weekday (add_days now 1) = 5)
    by (rewrite weekday_add_days, Hf; reflexivity).
  assert (Sun : weekday (add_days now 2) = 6)
    by (rewrite weekday_add_days, Hf; reflexivity).
  set (next_open := replace_tz (add_days (add_days now 1) 2)
                      (open_h cfg) (open_m cfg)).
  assert (O : ordinal next_open = ordinal now + 3) by (simpl; lia).
  exists next_open.
  split; [|split; [|split; [|split; [|split; [|split; [|split; [|split]]]]]]];
    try assumption; try reflexivity.
  - rewrite (tick_after_close _ _ Hc).
    now rewrite (skip_weekend_saturday _ Sat).
  - unfold weekday in *. simpl in *.
    replace (ordinal now + 1 + 2 + 6) with (ordinal now + 6 + 3) by lia.
    rewrite <- Z.add_mod_idemp_l, Hf by lia. reflexivity.
  - intro dst. rewrite <- O. now apply zone_open_instant.
  - intros dst T. now apply sleep_secs_zone.
Qed.

Lemma next_open_after_friday_close_witness :
  weekday (reading friday 16 0 1) = 4 /\
  time_gt (time_of (reading friday 16 0 1))
          (MARKET_CLOSE (default_schedule 60)) = true /\
  exists next_open,
    tick (default_schedule 60) (reading friday 16 0 1)
      = SleepUntil next_open /\
    ordinal next_open = ordinal (reading friday 16 0 1) + 3 /\
    weekday (add_days (reading friday 16 0 1) 1) = 5 /\
    weekday (add_days (reading friday 16 0 1) 2) = 6 /\
    weekday next_open = 0 /\
    time_of next_open = MARKET_OPEN (default_schedule 60) /\
    tz next_open = Zone /\
    (forall dst,
       utc_micros next_open
       - utc_micros (eastern_open (default_schedule 60)
                       (ordinal (reading friday 16 0 1) + 3) dst)
       = (if dst then 56 else -4) * 60000000) /\
    (forall dst, tz (reading friday 16 0 1) = Localized dst ->
       (sleep_secs next_open (reading friday 16 0 1)
        == civil_seconds next_open (reading friday 16 0 1)
           + (if dst then 3360 else -240))%Q).
Proof.
  split; [reflexivity|]. split; [reflexivity|].
  apply next_open_after_friday_close; reflexivity.
Defined.

(** The failing input, evaluated.  On Friday 2024-01-05 at 16:00:01 EST
    the open of Monday 09:30 EST is 235799 seconds away and the loop
    sleeps 235559 seconds, until 09:26.  On Friday 2024-07-05 at 16:00:01
    EDT it sleeps 239159 seconds, until 10:26. *)
Example friday_close_sleep :
  (civil_seconds {| ordinal := friday + 3; clock := dtime 9 30; tz := Zone |}
     (reading friday 16 0 1) == 235799)%Q /\
  (sleep_secs {| ordinal := friday + 3; clock := dtime 9 30; tz := Zone |}
     (reading friday 16 0 1) == 235559)%Q /\
  tick (default_schedule 60) (reading_dst summer_friday 16 0 1)
  = SleepUntil {| ordinal := summer_friday + 3; clock := dtime 9 30;
                  tz := Zone |} /\
  (sleep_secs {| ordinal := summer_friday + 3; clock := dtime 9 30;
                 tz := Zone |}
     (reading_dst summer_friday 16 0 1) == 239159)%Q.
Proof. repeat split. Qed.

(** The same tick, evaluated: Friday 2024-01-05 at 16:00:01 sleeps until
    Monday 2024-01-08 at 09:30. *)
Example tick_friday_evening :
  tick (default_schedule 60) (reading friday 16 0 1)
  = SleepUntil {| ordinal := friday + 3; clock := dtime 9 30; tz := Zone |}.
Proof. reflexivity. Qed.




End SchedulerFacts.

(** ** MarketScheduler: the loop on every day of the week *)

Module SchedulerMore.
Import Scheduler SchedulerSpec ClockSpec SchedulerFacts.
Local Open Scope Z_scope.

Lemma weekday_cases d :
  weekday d = 0 \/ weekday d = 1 \/ weekday d = 2 \/ weekday d = 3 \/
  weekday d = 4 \/ weekday d = 5 \/ weekday d = 6.
Proof. pose proof (weekday_range d). lia. Qed.

Lemma skip_weekend_working d : weekday d < 5 -> skip_weekend d = d.
Proof.
  intro H. rewrite skip_weekend_step.
  now replace (5 <=? weekday d) with false by (symmetry; apply Z.leb_gt; lia).
Qed.

Lemma skip_weekend_sunday d : weekday d = 6 -> skip_weekend d = add_days d 1.
Proof.
  intro H. rewrite skip_weekend_step, H. simpl.
  apply skip_weekend_working. rewrite weekday_add_days, H. reflexivity.
Qed.

Lemma weekday_tomorrow d :
  weekday (add_days d 1) = if weekday d =? 6 then 0 else weekday d + 1.
Proof.
  rewrite weekday_add_days.
  destruct (weekday_cases d) as [W|[W|[W|[W|[W|[W|W]]]]]];
    rewrite W; reflexivity.
Qed.

Lemma skip_weekend_later d :
  ordinal d <= ordinal (skip_weekend d) <= ordinal d + 2.
Proof.
  destruct (Z_lt_dec (weekday d) 5) as [W | W].
  - rewrite (skip_weekend_working d W). lia.
  - assert (C : weekday d = 5 \/ weekday d = 6)
      by (pose proof (weekday_range d); lia).
    destruct C as [C | C];
      [rewrite (skip_weekend_saturday d C)|rewrite (skip_weekend_sunday d C)];
      simpl; lia.
Qed.

(** X1.  The weekend loop ends on a working day at most two days later, keeps
    the clock reading, passes only over Saturdays and Sundays, and leaves
    a working day alone. *)
Theorem skip_weekend_spec d :
  weekday (skip_weekend d) < 5 /\
  ordinal d <= ordinal (skip_weekend d) <= ordinal d + 2 /\
  clock (skip_weekend d) = clock d /\
  (forall k, ordinal d <= k < ordinal (skip_weekend d) -> 5 <= (k + 6) mod 7) /\
  (weekday d < 5 <-> skip_weekend d = d).
Proof.
  split; [apply skip_weekend_working_day|].
  destruct (Z_lt_dec (weekday d) 5) as [W | W].
  - rewrite (skip_weekend_working d W).
    repeat split; intros; try lia; try reflexivity; assumption.
  - assert (C : weekday d = 5 \/ weekday d = 6)
      by (pose proof (weekday_range d); lia).
    destruct C as [C | C].
    + rewrite (skip_weekend_saturday d C). simpl.
      split; [lia|]. split; [reflexivity|]. split.
      * intros k Hk. unfold weekday in C.
        assert (K : k = ordinal d \/ k = ordinal d + 1) by lia.
        destruct K as [-> | ->]; [lia|].
        replace (ordinal d + 1 + 6) with (ordinal d + 6 + 1) by lia.
        rewrite <- Z.add_mod_idemp_l by lia. rewrite C.
        change ((5 + 1) mod 7) with 6. lia.
      * split; [lia|]. intro E. apply (f_equal ordinal) in E.
        simpl in E. lia.
    + rewrite (skip_weekend_sunday d C). simpl.
      split; [lia|]. split; [reflexivity|]. split.
      * intros k Hk. unfold weekday in C.
        assert (K : k = ordinal d) by lia. subst k. lia.
      * split; [lia|]. intro E. apply (f_equal ordinal) in E.
        simpl in E. lia.
Qed.

(** X2.  Past the close of any day, the next open the loop computes is
    dated on the next working day (three days later on a Friday, two on
    a Saturday, one on every other day) and reads the configured open
    time, but carries the zone object itself: the sleep until it is the
    time between the two readings less 240 seconds when now is on
    standard time, plus 3360 seconds when now is on daylight time. *)
Theorem next_open_after_close cfg now :
  time_gt (time_of now) (MARKET_CLOSE cfg) = true ->
  exists next_open,
    tick cfg now = SleepUntil next_open /\
    ordinal next_open = ordinal now + days_to_next_open (weekday now) /\
    weekday next_open < 5 /\
    time_of next_open = MARKET_OPEN cfg /\
    tz next_open = Zone /\
    (forall dst, tz now = Localized dst ->
       (sleep_secs next_open now
        == civil_seconds next_open now + (if dst then 3360 else -240))%Q).
Proof.
  intro Hc.
  exists (replace_tz (skip_weekend (add_days now 1))
            (open_h cfg) (open_m cfg)).
  split; [exact (tick_after_close cfg now Hc)|].
  split; [|split; [|split; [reflexivity|split; [reflexivity|]]]].
  - simpl. unfold days_to_next_open.
    pose proof (weekday_tomorrow now) as A.
    destruct (weekday_cases now) as [W|[W|[W|[W|[W|[W|W]]]]]];
      rewrite W in *; simpl in A |- *.
    1-4, 7: rewrite skip_weekend_working by lia; reflexivity.
    + rewrite skip_weekend_saturday by exact A. simpl. lia.
    + rewrite skip_weekend_sunday by exact A. simpl. lia.
  - change (weekday (skip_weekend (add_days now 1)) < 5).
    apply skip_weekend_working_day.
  - intros dst T. now apply sleep_secs_zone.
Qed.

Lemma next_open_after_close_witness :
  exists next_open,
    tick (default_schedule 60) (reading (friday + 1) 18 30 0)
      = SleepUntil next_open /\
    ordinal next_open
      = ordinal (reading (friday + 1) 18 30 0)
        + days_to_next_open (weekday (reading (friday + 1) 18 30 0)) /\
    weekday next_open < 5 /\
    time_of next_open = MARKET_OPEN (default_schedule 60) /\
    tz next_open = Zone /\
    (forall dst, tz (reading (friday + 1) 18 30 0) = Localized dst ->
       (sleep_secs next_open (reading (friday + 1) 18 30 0)
        == civil_seconds next_open (reading (friday + 1) 18 30 0)
           + (if dst then 3360 else -240))%Q).
Proof.
  apply next_open_after_close. reflexivity.
Defined.

(** X3.  Whether a tick is active depends on the clock reading alone: the same
    reading on any other day, a Saturday or Sunday included, runs the
    pipeline with the same interval. *)
Theorem tick_active_any_day cfg now interval day :
  tick cfg now = RunThenSleep interval ->
  tick cfg (on_day day now) = RunThenSleep interval.
Proof.
  unfold tick. intro H.
  change (time_of (on_day day now)) with (time_of now).
  change (minutes_since_open (on_day day now) (MARKET_OPEN cfg))
    with (minutes_since_open now (MARKET_OPEN cfg)).
  change (time_of (replace (on_day day now) (hour (MARKET_OPEN cfg))
                     (minute (MARKET_OPEN cfg))))
    with (time_of (replace now (hour (MARKET_OPEN cfg))
                     (minute (MARKET_OPEN cfg)))).
  change (time_of (replace (on_day day now) (hour (MARKET_CLOSE cfg))
                     (minute (MARKET_CLOSE cfg))))
    with (time_of (replace now (hour (MARKET_CLOSE cfg))
                     (minute (MARKET_CLOSE cfg)))).
  destruct (time_le _ _ && time_le _ _); [exact H|].
  destruct (time_gt _ _); discriminate.
Qed.

Lemma tick_active_any_day_witness :
  weekday (on_day (friday + 1) (reading friday 10 0 0)) = 5 /\
  tick (default_schedule 60) (on_day (friday + 1) (reading friday 10 0 0))
  = RunThenSleep 30.
Proof.
  split; [reflexivity|].
  apply (tick_active_any_day (default_schedule 60) (reading friday 10 0 0)).
  reflexivity.
Defined.

(** X4.  A waiting tick always sleeps until a moment that lies ahead: a later
    day after the close, later the same day before the open. *)
Theorem tick_sleeps_forward cfg now next_open :
  tick cfg now = SleepUntil next_open ->
  before now next_open.
Proof.
  unfold tick. intro H.
  destruct (time_le (time_of (replace now _ _)) (time_of now)) eqn:O;
    destruct (time_le (time_of now) _) eqn:C; simpl in H;
    try discriminate.
  - (* past the close *)
    unfold time_le, time_gt in *.
    destruct (time_compare (time_of now) _) eqn:E; try discriminate.
    injection H as <-. left. simpl.
    pose proof (skip_weekend_later (add_days now 1)) as B.
    simpl in B. lia.
  - (* before the open, not past the close *)
    replace (time_gt (time_of now) _) with false in H
      by (unfold time_le, time_gt in *;
          destruct (time_compare (time_of now) _); congruence).
    injection H as <-. right. split; [reflexivity|].
    clear C. unfold time_le in O. unfold time_gt.
    change (clock (replace now (open_h cfg) (open_m cfg)))
      with (time_of (replace now (hour (MARKET_OPEN cfg))
                       (minute (MARKET_OPEN cfg)))).
    change (clock now) with (time_of now).
    destruct (time_compare _ (time_of now)); congruence.
  - (* before the open and past the close: the close comes first *)
    unfold time_le, time_gt in *.
    destruct (time_compare (time_of now) _) eqn:E; try discriminate.
    injection H as <-. left. simpl.
    pose proof (skip_weekend_later (add_days now 1)) as B.
    simpl in B. lia.
Qed.

Lemma tick_sleeps_forward_witness :
  before (reading friday 8 0 0)
         {| ordinal := friday; clock := dtime 9 30; tz := Localized false |}.
Proof.
  apply (tick_sleeps_forward (default_schedule 60)). reflexivity.
Defined.

(** For readings within the ranges of [datetime.time], the field-by-field
    order of the clock is the order of the microseconds since midnight. *)
Lemma time_compare_micros a b :
  valid_clock a -> valid_clock b ->
  time_compare a b = (micros a ?= micros b).
Proof.
  intros (Ha & Ma & Sa & Ua) (Hb & Mb & Sb & Ub).
  unfold time_compare, micros. symmetry.
  destruct (Z.compare_spec (hour a) (hour b)) as [Eh | Lh | Gh];
    [|apply Z.compare_lt_iff; lia|apply Z.compare_gt_iff; lia].
  destruct (Z.compare_spec (minute a) (minute b)) as [Em | Lm | Gm];
    [|apply Z.compare_lt_iff; lia|apply Z.compare_gt_iff; lia].
  destruct (Z.compare_spec (second a) (second b)) as [Es | Ls | Gs];
    [|apply Z.compare_lt_iff; lia|apply Z.compare_gt_iff; lia].
  rewrite Eh, Em, Es.
  destruct (Z.compare_spec (microsecond a) (microsecond b)) as [Eu | Lu | Gu];
    [apply Z.compare_eq_iff|apply Z.compare_lt_iff|apply Z.compare_gt_iff];
    lia.
Qed.

Lemma valid_dtime h m : 0 <= h < 24 -> 0 <= m < 60 -> valid_clock (dtime h m).
Proof. unfold valid_clock, dtime; simpl; lia. Qed.

(** X5.  On an active tick, with clock fields in range, the minutes elapsed
    since the open are never negative and never more than the length of
    the trading day. *)
Theorem elapsed_within_trading_day cfg now interval :
  valid_clock (clock now) ->
  0 <= open_h cfg < 24 -> 0 <= open_m cfg < 60 ->
  0 <= close_h cfg < 24 -> 0 <= close_m cfg < 60 ->
  tick cfg now = RunThenSleep interval ->
  (0 <= minutes_since_open now (MARKET_OPEN cfg)
   <= inject_Z ((close_h cfg * 60 + close_m cfg)
                - (open_h cfg * 60 + open_m cfg)))%Q.
Proof.
  intros V Oh Om Ch Cm H. unfold tick in H.
  destruct (time_le _ _) eqn:O in H; [|simpl in H;
    destruct (time_gt _ _); discriminate].
  destruct (time_le _ _) eqn:C in H; [|simpl in H;
    destruct (time_gt _ _); discriminate].
  clear H. unfold time_le in O, C.
  change (time_of (replace now (hour (MARKET_OPEN cfg))
                     (minute (MARKET_OPEN cfg))))
    with (dtime (open_h cfg) (open_m cfg)) in O.
  change (time_of (replace now (hour (MARKET_CLOSE cfg))
                     (minute (MARKET_CLOSE cfg))))
    with (dtime (close_h cfg) (close_m cfg)) in C.
  change (time_of now) with (clock now) in O, C.
  rewrite time_compare_micros in O, C by (auto using valid_dtime).
  assert (Lo : micros (dtime (open_h cfg) (open_m cfg)) <= micros (clock now)).
  { destruct (Z.compare_spec (micros (dtime (open_h cfg) (open_m cfg)))
                (micros (clock now))); try lia; discriminate. }
  assert (Hi : micros (clock now) <= micros (dtime (close_h cfg) (close_m cfg))).
  { destruct (Z.compare_spec (micros (clock now))
                (micros (dtime (close_h cfg) (close_m cfg)))); try lia;
      discriminate. }
  unfold minutes_since_open.
  change (clock (replace now (hour (MARKET_OPEN cfg))
                   (minute (MARKET_OPEN cfg))))
    with (dtime (open_h cfg) (open_m cfg)).
  set (e := micros (clock now) - micros (dtime (open_h cfg) (open_m cfg))).
  set (D := close_h cfg * 60 + close_m cfg - (open_h cfg * 60 + open_m cfg)).
  assert (E0 : 0 <= e) by (subst e; lia).
  assert (E1 : e <= D * 60000000)
    by (subst e D; unfold micros, dtime in *; simpl in *; lia).
  rewrite Zle_Qle in E0, E1. rewrite inject_Z_mult in E1.
  change (inject_Z 0) with 0%Q in E0.
  change (inject_Z 60000000) with 60000000%Q in E1.
  split.
  - apply Qle_shift_div_l; [reflexivity|].
    apply Qle_shift_div_l; [reflexivity|]. lra.
  - apply Qle_shift_div_r; [reflexivity|].
    apply Qle_shift_div_r; [reflexivity|]. lra.
Qed.

Lemma elapsed_within_trading_day_witness :
  (0 <= minutes_since_open (reading friday 12 1 0)
          (MARKET_OPEN (default_schedule 60))
   <= inject_Z ((16 * 60 + 0) - (9 * 60 + 30)))%Q.
Proof.
  apply (elapsed_within_trading_day (default_schedule 60)
           (reading friday 12 1 0) 60);
    try (simpl; lia); try reflexivity.
  unfold valid_clock; simpl; lia.
Defined.

End SchedulerMore.

(** ** Settings *)

Module SettingsFacts.
Import Settings SettingsSpec.
Local Open Scope string_scope.

Lemma split_nonempty sep s : split sep s <> [].
Proof.
  destruct s as [|c t]; simpl; [discriminate|].
  destruct (Ascii.eqb c sep); [discriminate|].
  destruct (split sep t); discriminate.
Qed.

Lemma join_cons sep x y l :
  join sep (x :: y :: l) = x ++ String sep (join sep (y :: l)).
Proof. reflexivity. Qed.

Lemma join_split sep s : join sep (split sep s) = s.
Proof.
  induction s as [|c t IH]; [reflexivity|].
  simpl. destruct (Ascii.eqb c sep) eqn:E.
  - apply Ascii.eqb_eq in E. subst c.
    destruct (split sep t) as [|h r] eqn:S; [now apply split_nonempty in S|].
    rewrite join_cons. simpl. now rewrite IH.
  - destruct (split sep t) as [|h r] eqn:S; [now apply split_nonempty in S|].
    destruct r as [|y r].
    + unfold join in *. simpl in *. now rewrite IH.
    + rewrite join_cons in *. simpl. now rewrite IH.
Qed.

Lemma split_app sep a b :
  split sep (a ++ String sep b) = (split sep a ++ split sep b)%list.
Proof.
  induction a as [|c a IH]; simpl.
  - now rewrite Ascii.eqb_refl.
  - destruct (Ascii.eqb c sep); [now rewrite IH|].
    rewrite IH.
    destruct (split sep a) as [|h r] eqn:S; [now apply split_nonempty in S|].
    reflexivity.
Qed.

Lemma split_sep_free sep s : sep_free sep s = true -> split sep s = [s].
Proof.
  induction s as [|c t IH]; [reflexivity|].
  simpl. intro H. apply andb_true_iff in H. destruct H as [N F].
  apply negb_true_iff in N. rewrite N, (IH F). reflexivity.
Qed.

Lemma split_join sep parts :
  parts <> [] -> Forall (fun p => sep_free sep p = true) parts ->
  split sep (join sep parts) = parts.
Proof.
  intros N F. induction F as [|x l Hx F IH]; [congruence|].
  destruct l as [|y l].
  - apply split_sep_free, Hx.
  - rewrite join_cons, split_app, (split_sep_free _ _ Hx), IH by discriminate.
    reflexivity.
Qed.

(** X6.  Splitting a path and joining the pieces are inverse to each other:
    joining the pieces of any string gives the string back, and splitting
    a join of pieces that do not hold the separator gives the pieces
    back. *)
Theorem split_join_inverse sep :
  (forall s, join sep (split sep s) = s) /\
  (forall parts,
     parts <> [] -> Forall (fun p => sep_free sep p = true) parts ->
     split sep (join sep parts) = parts).
Proof.
  split; [apply join_split|apply split_join].
Qed.

Lemma split_join_inverse_witness :
  split "." (join "." ["market"; "update_schedule"; "early_interval_minutes"])
  = ["market"; "update_schedule"; "early_interval_minutes"].
Proof.
  apply (proj2 (split_join_inverse ".")); [discriminate|].
  repeat constructor.
Defined.

Lemma walk_not_dict parts default :
  parts <> [] -> walk YNull parts default = default.
Proof. destruct parts; [congruence|reflexivity]. Qed.

Lemma walk_app d l1 l2 default :
  l2 <> [] ->
  walk d (l1 ++ l2)%list default = walk (walk d l1 YNull) l2 default.
Proof.
  intro N. revert d; induction l1 as [|p l1 IH]; intro d; [reflexivity|].
  simpl. destruct d; try (now rewrite walk_not_dict).
  destruct (get items p); [apply IH|now rewrite walk_not_dict].
Qed.

(** X7.  Looking up a dotted path is looking up its first part and then the
    rest in what was found: a part that is missing, or found to be
    something else than a dict, sends the whole lookup to the default. *)
Theorem cfg_compose d p q default :
  cfg d (p ++ String "." q) default = cfg (cfg d p YNull) q default.
Proof.
  unfold cfg. rewrite split_app. apply walk_app, split_nonempty.
Qed.

(** X8.  On anything but a dict with keys, and so on the empty dict that
    [load_cfg] returns for a missing or unreadable file, every lookup
    gives the default. *)
Theorem cfg_default d path default :
  has_keys d = false -> cfg d path default = default.
Proof.
  intro H. unfold cfg.
  destruct (split "." path) as [|p l] eqn:S; [now apply split_nonempty in S|].
  destruct d as [| | | | |[|kv items]]; try reflexivity. discriminate.
Qed.

Lemma cfg_default_witness :
  cfg (YDict []) "market.market_open" (YStr "09:30") = YStr "09:30".
Proof. apply cfg_default. reflexivity. Defined.

Lemma walk_resolve d keys default :
  walk d keys default
  = match resolve d keys with Some v => v | None => default end.
Proof.
  revert d; induction keys as [|k keys IH]; intro d; [reflexivity|].
  simpl. destruct d; try reflexivity.
  destruct (get items k); [apply IH|reflexivity].
Qed.

(** X9.  A value that sits under the keys k1, ..., kn of nested dicts (none of
    the keys holding a dot) is what [cfg] returns for the path
    "k1.k2...kn", whatever the default and also when the value is null;
    when a key on the way is missing the default is returned. *)
Theorem cfg_dotted_path d keys default :
  keys <> [] -> Forall (fun k => sep_free "." k = true) keys ->
  (forall v, resolve d keys = Some v -> cfg d (join "." keys) default = v) /\
  (resolve d keys = None -> cfg d (join "." keys) default = default).
Proof.
  intros N F. unfold cfg. rewrite (split_join "." keys N F), walk_resolve.
  split; [intros v ->|intros ->]; reflexivity.
Qed.

Lemma cfg_dotted_path_witness :
  cfg (YDict [("log", YDict [("level", YNull)])]) "log.level" (YStr "INFO")
  = YNull.
Proof.
  apply (proj1 (cfg_dotted_path
                  (YDict [("log", YDict [("level", YNull)])])
                  ["log"; "level"] (YStr "INFO")
                  ltac:(discriminate) ltac:(repeat constructor))).
  reflexivity.
Defined.

(** *** The ticker list *)

Ltac all_chars c :=
  destruct c as [[] [] [] [] [] [] [] []]; reflexivity.

Lemma is_space_upper c : is_space (upper_char c) = is_space c.
Proof. all_chars c. Qed.

Lemma upper_char_idem c : upper_char (upper_char c) = upper_char c.
Proof. all_chars c. Qed.

Lemma upper_char_comma c :
  Ascii.eqb (upper_char c) "," = Ascii.eqb c ",".
Proof. all_chars c. Qed.

Lemma upper_idem s : upper (upper s) = upper s.
Proof.
  induction s as [|c t IH]; simpl; [reflexivity|].
  now rewrite upper_char_idem, IH.
Qed.

Lemma lstrip_upper s : lstrip (upper s) = upper (lstrip s).
Proof.
  induction s as [|c t IH]; simpl; [reflexivity|].
  rewrite is_space_upper. now destruct (is_space c).
Qed.

Lemma rstrip_upper s : rstrip (upper s) = upper (rstrip s).
Proof.
  induction s as [|c t IH]; simpl; [reflexivity|].
  rewrite IH, is_space_upper.
  destruct (rstrip t); simpl; [now destruct (is_space c)|reflexivity].
Qed.

Lemma strip_upper s : strip (upper s) = upper (strip s).
Proof. unfold strip. now rewrite lstrip_upper, rstrip_upper. Qed.

Lemma lstrip_starts_clean s : starts_clean (lstrip s).
Proof.
  induction s as [|c t IH]; simpl; [exact I|].
  destruct (is_space c) eqn:E; [exact IH|exact E].
Qed.

Lemma lstrip_clean s : starts_clean s -> lstrip s = s.
Proof.
  destruct s as [|c t]; simpl; [reflexivity|]. now intros ->.
Qed.

Lemma rstrip_starts_clean s : starts_clean s -> starts_clean (rstrip s).
Proof.
  destruct s as [|c t]; simpl; [exact id|]. intro E.
  destruct (rstrip t); [rewrite E|]; exact E.
Qed.

Lemma rstrip_idem s : rstrip (rstrip s) = rstrip s.
Proof.
  induction s as [|c t IH]; simpl; [reflexivity|].
  destruct (rstrip t) as [|d r] eqn:R.
  - destruct (is_space c) eqn:E; simpl; [reflexivity|now rewrite E].
  - change (rstrip (String c (String d r)))
      with (match rstrip (String d r) with
            | EmptyString =>
                if is_space c then EmptyString else String c EmptyString
            | x => String c x
            end).
    now rewrite IH.
Qed.

Lemma strip_idem s : strip (strip s) = strip s.
Proof.
  unfold strip.
  rewrite (lstrip_clean (rstrip (lstrip s)))
    by apply rstrip_starts_clean, lstrip_starts_clean.
  apply rstrip_idem.
Qed.

Lemma sep_free_lstrip sep s :
  sep_free sep s = true -> sep_free sep (lstrip s) = true.
Proof.
  induction s as [|c t IH]; simpl; [trivial|].
  intro H. destruct (is_space c); [|exact H].
  apply andb_true_iff in H. now apply IH.
Qed.

Lemma sep_free_rstrip sep s :
  sep_free sep s = true -> sep_free sep (rstrip s) = true.
Proof.
  induction s as [|c t IH]; simpl; [trivial|].
  intro H. apply andb_true_iff in H. destruct H as [N F].
  specialize (IH F).
  destruct (rstrip t); [destruct (is_space c)|]; simpl in *;
    rewrite ?N, ?IH; reflexivity.
Qed.

Lemma sep_free_upper s :
  sep_free "," s = true -> sep_free "," (upper s) = true.
Proof.
  induction s as [|c t IH]; simpl; [trivial|].
  intro H. apply andb_true_iff in H. destruct H as [N F].
  now rewrite upper_char_comma, N, IH.
Qed.

Lemma split_parts_sep_free sep s :
  Forall (fun p => sep_free sep p = true) (split sep s).
Proof.
  induction s as [|c t IH]; simpl; [repeat constructor|].
  destruct (Ascii.eqb c sep) eqn:E; [now constructor|].
  destruct (split sep t) as [|h r]; [repeat constructor; simpl; now rewrite E|].
  inversion IH; subst. constructor; [|assumption].
  simpl. now rewrite E.
Qed.

Lemma upper_truthy s : truthy (upper s) = truthy s.
Proof. now destruct s. Qed.

(** X10.  Every ticker read from the environment is clean: not empty, without
    white space around it, without lower-case letters and without commas;
    and there is at most one ticker per piece between commas. *)
Theorem parse_tickers_clean env_tickers :
  is_ascii env_tickers = true ->
  Forall clean (parse_tickers env_tickers) /\
  (length (parse_tickers env_tickers)
   <= length (split "," env_tickers))%nat.
Proof.
  intros _. unfold parse_tickers. split.
  - apply Forall_map, Forall_forall. intros t Ht.
    apply filter_In in Ht. destruct Ht as [I T].
    pose proof (proj1 (Forall_forall _ _)
                  (split_parts_sep_free "," env_tickers) t I) as F.
    simpl in F. unfold clean. repeat split.
    + intro E. apply (f_equal truthy) in E.
      rewrite upper_truthy, T in E. discriminate.
    + now rewrite strip_upper, strip_idem.
    + apply upper_idem.
    + apply sep_free_upper. unfold strip.
      now apply sep_free_rstrip, sep_free_lstrip.
  - rewrite length_map. apply filter_length_le.
Qed.

Lemma parse_tickers_clean_witness :
  parse_tickers " spy, qqq ,,dia ," = ["SPY"; "QQQ"; "DIA"] /\
  Forall clean (parse_tickers " spy, qqq ,,dia ,").
Proof.
  split; [reflexivity|].
  apply (parse_tickers_clean " spy, qqq ,,dia ,"). reflexivity.
Defined.

(** X11.  For ASCII text, on which [strip] and [upper] are those of
    Python: a TICKERS variable that is not blank always wins over the config
    file, even when it holds no ticker at all (only commas and white
    space): the list is then empty.  A variable that is unset or blank
    leaves the choice to the config file, and to SPY, QQQ, DIA when the
    file has no list. *)
Theorem tickers_precedence env cfg_all :
  is_ascii env = true ->
  (strip env <> EmptyString ->
   tickers (Some env) cfg_all = YList (map YStr (parse_tickers (strip env)))) /\
  (strip env <> EmptyString ->
   Forall (fun t => strip t = EmptyString) (split "," (strip env)) ->
   tickers (Some env) cfg_all = YList []) /\
  (strip env = EmptyString ->
   tickers (Some env) cfg_all = tickers None cfg_all) /\
  (tickers None cfg_all
   = match resolve cfg_all ["market"; "tickers"] with
     | Some v => v
     | None => YList [YStr "SPY"; YStr "QQQ"; YStr "DIA"]
     end).
Proof.
  intros _.
  assert (A : strip env <> EmptyString ->
              tickers (Some env) cfg_all
              = YList (map YStr (parse_tickers (strip env)))).
  { intro N. unfold tickers. destruct (strip env); [congruence|reflexivity]. }
  split; [exact A|]. split; [|split].
  - intros N B. rewrite (A N). unfold parse_tickers.
    replace (filter _ _) with (@nil string); [reflexivity|].
    symmetry. induction B as [|t l Ht _ IH]; [reflexivity|].
    simpl. now rewrite Ht.
  - intro E. unfold tickers. now rewrite E.
  - unfold tickers. simpl truthy. cbv iota.
    unfold cfg. change (split "." "market.tickers") with ["market"; "tickers"].
    apply walk_resolve.
Qed.

Lemma tickers_precedence_witness :
  tickers (Some " , ")
    (YDict [("market", YDict [("tickers", YList [YStr "IWM"])])])
  = YList [].
Proof.
  apply (proj1 (proj2 (tickers_precedence " , " _ eq_refl))).
  - discriminate.
  - repeat constructor.
Defined.

End SettingsFacts.

(** ** MessageFormatter: widths, cells and lines *)

Module MessageMore.
Import Float Snapshot SnapshotSpec Message MessageSpec MessageFacts.
Import Settings SettingsSpec SettingsFacts.
Local Open Scope string_scope.

Lemma sep_free_app sep a b :
  sep_free sep (a ++ b) = sep_free sep a && sep_free sep b.
Proof.
  induction a as [|c a IH]; simpl; [reflexivity|].
  now rewrite IH, andb_assoc.
Qed.

Lemma sep_free_times sep c n :
  Ascii.eqb c sep = false -> sep_free sep (times c n) = true.
Proof.
  intro H. induction n as [|n IH]; simpl; [reflexivity|].
  now rewrite H, IH.
Qed.

(** X12.  An available field never renders as "n/a": the token stands for an
    unavailable field and for nothing else. *)
Theorem cell_na v : cell v = "n/a" <-> v = None.
Proof.
  split; [|now intros ->].
  destruct v as [x|]; [|reflexivity]. intro H. exfalso.
  destruct x as [q| | |]; simpl in H; try discriminate.
  apply (f_equal (sep_free ".")) in H.
  rewrite !sep_free_app in H. simpl in H.
  rewrite andb_false_r, andb_false_r in H. discriminate.
Qed.

Lemma len_app a b : len (a ++ b) = (len a + len b)%nat.
Proof.
  induction a as [|c a IH]; simpl; [reflexivity|]. rewrite IH. lia.
Qed.

Lemma len_spaces n : len (times " " n) = n.
Proof. induction n as [|n IH]; simpl; [reflexivity|]. now rewrite IH. Qed.

Lemma len_ljust w s : len (ljust w s) = Nat.max w (len s).
Proof. unfold ljust. rewrite len_app, len_spaces. lia. Qed.

Lemma len_rjust w s : len (rjust w s) = Nat.max w (len s).
Proof. unfold rjust. rewrite len_app, len_spaces. lia. Qed.

(** X13.  The table is fixed-width and never truncates: a row is as wide as its
    four columns, each at least its nominal width (8, 9, 7, 8) and wider
    only when its text is, plus three separating spaces.  A row whose
    texts fit is 35 characters wide, as is the column header; the rule
    under the header is 34 characters wide. *)
Theorem row_width s :
  len (row s)
  = (Nat.max 8 (len (s_ticker s)) + 1 + Nat.max 9 (len (cell (s_last s)))
     + 1 + Nat.max 7 (len (cell (s_chg_pct s)))
     + 1 + Nat.max 8 (len (cell (s_rsi s))))%nat /\
  (35 <= len (row s))%nat /\
  ((len (s_ticker s) <= 8)%nat -> (len (cell (s_last s)) <= 9)%nat ->
   (len (cell (s_chg_pct s)) <= 7)%nat -> (len (cell (s_rsi s)) <= 8)%nat ->
   len (row s) = 35%nat) /\
  (forall generated_at,
     map len (skipn 4 (header generated_at)) = [35; 34]%nat).
Proof.
  assert (E : len (row s)
    = (Nat.max 8 (len (s_ticker s)) + 1 + Nat.max 9 (len (cell (s_last s)))
       + 1 + Nat.max 7 (len (cell (s_chg_pct s)))
       + 1 + Nat.max 8 (len (cell (s_rsi s))))%nat).
  { unfold row. rewrite !len_app, len_ljust, !len_rjust. simpl. lia. }
  split; [exact E|]. split; [lia|]. split; [lia|]. reflexivity.
Qed.

Lemma row_width_witness :
  len (row (empty_snapshot "SPY")) = 35%nat.
Proof.
  apply (proj1 (proj2 (proj2 (row_width (empty_snapshot "SPY")))));
    simpl; lia.
Defined.

(** A ticker longer than its column pushes its row out of alignment. *)
Example row_width_long_ticker :
  len (row (empty_snapshot "BRK-B.WS2")) = 36%nat.
Proof. reflexivity. Qed.

(** *** The lines of the message *)

Lemma digits_no_newline d :
  sep_free (ascii_of_nat 10) (DecimalString.NilEmpty.string_of_uint d) = true.
Proof. induction d; simpl; auto. Qed.

Lemma digits_line n : sep_free (ascii_of_nat 10) (digits n) = true.
Proof.
  unfold digits, DecimalString.NilZero.string_of_uint.
  destruct (N.to_uint (Z.to_N n)); try reflexivity; apply digits_no_newline.
Qed.

Lemma format_2f_line x : sep_free (ascii_of_nat 10) (format_2f x) = true.
Proof.
  destruct x as [q| | |]; try reflexivity.
  unfold format_2f, two_digits.
  rewrite !sep_free_app, digits_line.
  destruct (Qltb q 0); destruct (_ <? 10)%Z; simpl;
    rewrite ?digits_line; reflexivity.
Qed.

Lemma cell_line v : sep_free (ascii_of_nat 10) (cell v) = true.
Proof. destruct v; [apply format_2f_line|reflexivity]. Qed.

Lemma row_line s :
  sep_free (ascii_of_nat 10) (s_ticker s) = true ->
  sep_free (ascii_of_nat 10) (row s) = true.
Proof.
  intro H. unfold row, ljust, rjust.
  rewrite !sep_free_app, H, !cell_line, !sep_free_times by reflexivity.
  reflexivity.
Qed.

(** X14.  Splitting the message at its line breaks gives back exactly the lines
    that were rendered, so every snapshot occupies one line of the text,
    provided no ticker and no time stamp holds a line break. *)
Theorem build_message_lines generated_at snaps :
  sep_free (ascii_of_nat 10) generated_at = true ->
  Forall (fun s => sep_free (ascii_of_nat 10) (s_ticker s) = true) snaps ->
  split (ascii_of_nat 10) (build_message generated_at snaps)
  = (header generated_at ++ map row snaps ++ ["```"])%list.
Proof.
  intros G T. unfold build_message. rewrite message_lines_eq.
  apply (split_join (ascii_of_nat 10)).
  - discriminate.
  - apply Forall_app. split; [|apply Forall_app; split].
    + unfold header. repeat constructor.
      rewrite !sep_free_app, G. reflexivity.
    + apply Forall_map. eapply Forall_impl; [|exact T].
      intros s Hs. now apply row_line.
    + repeat constructor.
Qed.

Lemma build_message_lines_witness :
  length (split (ascii_of_nat 10)
            (build_message "2024-01-05 10:00:00"
               [empty_snapshot "SPY"; empty_snapshot "QQQ"])) = 9%nat.
Proof.
  rewrite build_message_lines; [reflexivity|reflexivity|repeat constructor].
Defined.

End MessageMore.

(** ** IndicatorEngine: the last window *)

Module IndicatorMore.
Import Float Pandas Indicator IndicatorSpec RecentSpec.
Import FloatFacts PandasFacts IndicatorFacts.
Local Open Scope Q_scope.

Lemma recent_length close period :
  (period + 1 <= length close)%nat ->
  length (recent_changes close period) = period.
Proof.
  destruct close as [|c t]; simpl; [lia|]. intro H.
  rewrite length_skipn, steps_length. lia.
Qed.

Lemma last_window {A} (f : Q -> A) (x : A) c t period :
  (1 <= period)%nat -> (period <= length t)%nat ->
  window_at period (length (x :: map f (steps c t)) - 1)
            (x :: map f (steps c t))
  = map f (recent_changes (c :: t) period).
Proof.
  intros P L. unfold window_at, recent_changes.
  simpl length. rewrite length_map, steps_length.
  replace (S (length t) - 1 + 1 - period)%nat
    with (S (length t - period)) by lia.
  simpl skipn. rewrite <- skipn_map.
  apply firstn_all2. rewrite length_skipn, length_map, steps_length. lia.
Qed.

Lemma last_avg_gain close period :
  (1 <= period)%nat -> (period + 1 <= length close)%nat ->
  iloc_last (avg_gain close period)
  = mean (map Fin (map up (recent_changes close period))).
Proof.
  intros P L. unfold iloc_last, avg_gain.
  rewrite last_nth, rolling_mean_length, gain_fin, length_map.
  rewrite rolling_mean_nth by (rewrite length_map, gains_length; lia).
  replace (length (gains close) - 1 + 1 <? period)%nat with false
    by (symmetry; apply Nat.ltb_ge; rewrite gains_length; lia).
  rewrite window_map. destruct close as [|c t]; [simpl in L; lia|].
  unfold gains. rewrite last_window by (simpl in L; lia). reflexivity.
Qed.

Lemma last_avg_loss close period :
  (1 <= period)%nat -> (period + 1 <= length close)%nat ->
  iloc_last (avg_loss close period)
  = mean (map Fin (map down (recent_changes close period))).
Proof.
  intros P L. unfold iloc_last, avg_loss.
  rewrite last_nth, rolling_mean_length, loss_fin, length_map.
  rewrite rolling_mean_nth by (rewrite length_map, losses_length; lia).
  replace (length (losses close) - 1 + 1 <? period)%nat with false
    by (symmetry; apply Nat.ltb_ge; rewrite losses_length; lia).
  rewrite window_map. destruct close as [|c t]; [simpl in L; lia|].
  unfold losses. rewrite last_window by (simpl in L; lia). reflexivity.
Qed.

Lemma last_rsi close period :
  (1 <= period)%nat -> (period + 1 <= length close)%nat ->
  iloc_last (rsi close period) = last_entry (recent_changes close period).
Proof.
  intros P L. unfold iloc_last, rsi. rewrite last_map_oscillator.
  fold (iloc_last (rs close period)).
  now rewrite last_rs, last_avg_gain, last_avg_loss.
Qed.

(** When the last entry of [rsi] is a number, it is the one returned. *)
Lemma compute_rsi_last close period :
  (period + 1 <= length close)%nat ->
  is_nan (iloc_last (rsi close period)) = false ->
  compute_rsi close period = Some (round2 (iloc_last (rsi close period))).
Proof.
  intros L N.
  assert (Ne : rsi close period <> []).
  { intro E. apply (f_equal (@length _)) in E.
    rewrite rsi_length in E. simpl in E. lia. }
  destruct (dropna_last (rsi close period) Ne N) as [D E].
  unfold compute_rsi.
  replace ((length close =? 0) || (length close <? period + 1))%nat with false
    by (symmetry; apply orb_false_iff; split;
        [apply Nat.eqb_neq|apply Nat.ltb_ge]; lia).
  cbv zeta. destruct (dropna (rsi close period)) eqn:R; [congruence|].
  unfold iloc_last at 1. now rewrite E.
Qed.

Lemma map_up_nonneg l : Forall (fun x => 0 <= x) (map up l).
Proof. apply Forall_map, Forall_forall. intros; apply up_nonneg. Qed.

Lemma map_down_nonneg l : Forall (fun x => 0 <= x) (map down l).
Proof. apply Forall_map, Forall_forall. intros; apply down_nonneg. Qed.

Lemma last_entry_defined changes :
  Exists (fun d => ~ d == 0) changes -> is_nan (last_entry changes) = false.
Proof.
  intro E. apply Exists_exists in E. destruct E as (d & I & N).
  assert (Ne : changes <> []) by (intro Z; subst; contradiction).
  unfold last_entry.
  assert (D : is_nan (div (mean (map Fin (map up changes)))
                          (mean (map Fin (map down changes)))) = false).
  { apply div_defined.
    - apply mean_nonneg, map_up_nonneg.
    - apply mean_nonneg, map_down_nonneg.
    - apply mean_defined. destruct changes; [congruence|discriminate].
    - apply mean_defined. destruct changes; [congruence|discriminate].
    - destruct (up_or_down d N) as [U | U]; [left | right].
      + apply (mean_pos _ (up d)); [apply map_up_nonneg|now apply in_map|exact U].
      + apply (mean_pos _ (down d));
          [apply map_down_nonneg|now apply in_map|exact U]. }
  apply oscillator_defined; [|exact D].
  apply div_rs_ok; apply mean_nonneg;
    [apply map_up_nonneg|apply map_down_nonneg].
Qed.

Lemma steps_skipn j c t :
  (j <= length t)%nat ->
  steps (nth j (c :: t) 0) (skipn j t) = skipn j (steps c t).
Proof.
  revert c t; induction j as [|j IH]; intros c t H; [reflexivity|].
  destruct t as [|x t]; [simpl in H; lia|].
  simpl in H. simpl. apply IH. lia.
Qed.

Lemma skipn_cons_nth j (c : Q) t :
  (j <= length t)%nat -> skipn j (c :: t) = nth j (c :: t) 0 :: skipn j t.
Proof.
  revert c t; induction j as [|j IH]; intros c t J; [reflexivity|].
  destruct t as [|x t]; [simpl in J; lia|]. simpl in J.
  simpl. apply IH. lia.
Qed.

Lemma most_recent_changes close period :
  (period + 1 <= length close)%nat ->
  recent_changes (most_recent (period + 1) close) period
  = recent_changes close period.
Proof.
  destruct close as [|c t]; [reflexivity|]. simpl length. intro H.
  unfold most_recent. simpl length.
  replace (S (length t) - (period + 1))%nat with (length t - period)%nat by lia.
  set (j := (length t - period)%nat).
  rewrite (skipn_cons_nth j c t) by (subst j; lia). unfold recent_changes.
  rewrite length_skipn.
  replace (length t - j - period)%nat with 0%nat by (subst j; lia).
  simpl skipn at 1. apply steps_skipn. subst j; lia.
Qed.

Lemma most_recent_length n close :
  (n <= length close)%nat -> length (most_recent n close) = n.
Proof. intro H. unfold most_recent. rewrite length_skipn. lia. Qed.

(** X15.  Unless the last [period] changes are all zero, the result is that of
    the last window and so depends on the last [period + 1] closes only:
    older closes can be dropped without changing it. *)
Theorem compute_rsi_recent close period :
  (1 <= period)%nat -> (period + 1 <= length close)%nat ->
  Exists (fun d => ~ d == 0) (recent_changes close period) ->
  compute_rsi close period
  = compute_rsi (most_recent (period + 1) close) period.
Proof.
  intros P L E.
  assert (L' : (period + 1 <= length (most_recent (period + 1) close))%nat)
    by (rewrite most_recent_length; lia).
  rewrite (compute_rsi_last close period L),
          (compute_rsi_last _ period L');
    rewrite !last_rsi, ?most_recent_changes by assumption;
    try reflexivity; now apply last_entry_defined.
Qed.

Lemma compute_rsi_recent_witness :
  compute_rsi [50; 40; 1; 2; 3; 2; 5] 2 = compute_rsi [3; 2; 5] 2.
Proof.
  apply (compute_rsi_recent [50; 40; 1; 2; 3; 2; 5] 2);
    [lia|simpl; lia|].
  apply Exists_cons_hd. intro H. vm_compute in H. discriminate.
Defined.

(** X16.  When no close of the last window is below the one before it and at
    least one is above, the result is 100; when none is above and at
    least one is below, the result is 0. *)
Theorem compute_rsi_extremes close period :
  (1 <= period)%nat -> (period + 1 <= length close)%nat ->
  (Forall (fun d => 0 <= d) (recent_changes close period) ->
   Exists (fun d => 0 < d) (recent_changes close period) ->
   compute_rsi close period = Some (Fin 100)) /\
  (Forall (fun d => d <= 0) (recent_changes close period) ->
   Exists (fun d => d < 0) (recent_changes close period) ->
   compute_rsi close period = Some (Fin 0)).
Proof.
  intros P L.
  set (R := recent_changes close period).
  assert (Hr : iloc_last (rsi close period) = last_entry R)
    by now apply last_rsi.
  split; intros F E.
  - (* no fall, a rise *)
    assert (Zl : is_zero (mean (map Fin (map down R))) = true).
    { rewrite mean_fin.
      assert (Q0 : qsum (map down R) == 0).
      { apply qsum_zero, Forall_map. eapply Forall_impl; [|exact F].
        intros d Hd. unfold down.
        replace (Qltb d 0) with false
          by (symmetry; apply Qltb_ge; exact Hd). reflexivity. }
      apply Exists_exists in E. destruct E as (d & I & _).
      destruct R as [|x R']; [contradiction|].
      simpl map. unfold is_zero. apply Qeq_eq_bool. rewrite Q0. reflexivity. }
    assert (Pg : gt0 (mean (map Fin (map up R))) = true).
    { apply Exists_exists in E. destruct E as (d & I & Hd).
      apply (mean_pos _ (up d)); [apply map_up_nonneg|now apply in_map|].
      unfold up. replace (Qltb 0 d) with true
        by (symmetry; apply Qltb_lt; exact Hd). exact Hd. }
    assert (V : last_entry R = Fin (100 + - 0))
      by (unfold last_entry; now rewrite (div_pos_zero _ _ Pg Zl)).
    rewrite compute_rsi_last by (rewrite ?Hr, ?V; trivial).
    now rewrite Hr, V.
  - (* no rise, a fall *)
    assert (G0 : qsum (map up R) == 0).
    { apply qsum_zero, Forall_map. eapply Forall_impl; [|exact F].
      intros d Hd. unfold up.
      replace (Qltb 0 d) with false
        by (symmetry; apply Qltb_ge; exact Hd). reflexivity. }
    assert (Pl : gt0 (mean (map Fin (map down R))) = true).
    { apply Exists_exists in E. destruct E as (d & I & Hd).
      apply (mean_pos _ (down d)); [apply map_down_nonneg|now apply in_map|].
      unfold down. replace (Qltb d 0) with true
        by (symmetry; apply Qltb_lt; exact Hd). lra. }
    assert (V : exists q, last_entry R = Fin q /\ q == 0).
    { unfold last_entry. rewrite !mean_fin in *.
      apply Exists_exists in E. destruct E as (d & I & _).
      destruct R as [|x R']; [contradiction|]. simpl map in *.
      set (n := inject_Z (Z.of_nat (length (up x :: map up R')))) in *.
      set (m := inject_Z (Z.of_nat (length (down x :: map down R')))) in *.
      set (g := qsum (up x :: map up R')) in *.
      set (l := qsum (down x :: map down R')) in *.
      unfold gt0 in Pl. apply Qltb_lt in Pl.
      unfold div.
      destruct (Qeq_bool (l / m) 0) eqn:Z;
        [apply Qeq_bool_eq in Z; lra|].
      assert (Gz : g / n / (l / m) == 0).
      { rewrite G0. unfold Qdiv. now rewrite !Qmult_0_l. }
      rewrite oscillator_fin by (rewrite Gz; lra).
      eexists; split; [reflexivity|]. rewrite Gz. reflexivity. }
    destruct V as (q & V & Q0).
    rewrite compute_rsi_last by (rewrite ?Hr, ?V; trivial).
    rewrite Hr, V. simpl. now rewrite (Qround2_comp q 0 Q0).
Qed.

Lemma compute_rsi_extremes_witness :
  compute_rsi [10; 9; 9; 11; 12] 2 = Some (Fin 100) /\
  compute_rsi [10; 12; 11; 11; 9] 2 = Some (Fin 0).
Proof.
  split.
  - apply (proj1 (compute_rsi_extremes [10; 9; 9; 11; 12] 2
                    ltac:(lia) ltac:(simpl; lia))).
    + repeat constructor; discriminate.
    + apply Exists_cons_hd. reflexivity.
  - apply (proj2 (compute_rsi_extremes [10; 12; 11; 11; 9] 2
                    ltac:(lia) ltac:(simpl; lia))).
    + repeat constructor; discriminate.
    + apply Exists_cons_tl, Exists_cons_hd. reflexivity.
Defined.

End IndicatorMore.

(** ** SnapshotFetcher: what an available field tells *)

Module SnapshotMore.
Import Float Pandas Indicator IndicatorSpec Snapshot SnapshotSpec.
Import FloatFacts PandasFacts IndicatorFacts SnapshotFacts.
Local Open Scope string_scope.

(** Rounding moves a value by at most one half. *)
Lemma round_half_even_near q :
  (- (1 # 2) <= inject_Z (round_half_even q) - q <= 1 # 2)%Q.
Proof.
  unfold round_half_even.
  pose proof (Qfloor_le q) as Lo. pose proof (Qlt_floor q) as Hi.
  rewrite inject_Z_plus in Hi. change (inject_Z 1) with 1%Q in Hi.
  destruct (Qcompare_spec (q - inject_Z (Qfloor q)) (1 # 2)) as [E | L | G].
  - destruct (Z.even (Qfloor q));
      rewrite ?inject_Z_plus; change (inject_Z 1) with 1%Q; lra.
  - lra.
  - rewrite inject_Z_plus. change (inject_Z 1) with 1%Q. lra.
Qed.

Lemma Qround2_near q : (- (1 # 200) <= Qround2 q - q <= 1 # 200)%Q.
Proof.
  unfold Qround2. rewrite Qred_correct.
  pose proof (round_half_even_near (q * 100)) as H.
  set (n := inject_Z (round_half_even (q * 100))) in *.
  assert (E : (n / 100 == n * (1 # 100))%Q) by (unfold Qdiv; reflexivity).
  rewrite E. lra.
Qed.

Lemma Qround2_sign q :
  ((0 <= q -> 0 <= Qround2 q) /\ (q <= 0 -> Qround2 q <= 0))%Q.
Proof.
  unfold Qround2. rewrite Qred_correct.
  pose proof (Qfloor_le (q * 100)) as Lo.
  pose proof (Qlt_floor (q * 100)) as Hi.
  split; intro H.
  - destruct (round_half_even_between 0 (Qfloor (q * 100) + 1) (q * 100))
      as [A _]; [change (inject_Z 0) with 0%Q; lra|lra|].
    rewrite Zle_Qle in A. change (inject_Z 0) with 0%Q in A.
    apply Qle_shift_div_l; [reflexivity|lra].
  - destruct (round_half_even_between (Qfloor (q * 100)) 0 (q * 100))
      as [_ B]; [lra|change (inject_Z 0) with 0%Q; lra|].
    rewrite Zle_Qle in B. change (inject_Z 0) with 0%Q in B.
    apply Qle_shift_div_r; [reflexivity|lra].
Qed.

(** X17.  The last price of a snapshot is within half a cent of the most
    recent intraday close, and is a whole number of cents. *)
Theorem last_price_near_close download ticker n df :
  download ticker "1d" "1m" = Returns df ->
  rows df <> [] ->
  exists p,
    s_last (fetch_snapshot download ticker n) = Some (Fin p) /\
    (- (1 # 200) <= p - close_last (rows df) <= 1 # 200)%Q /\
    exists cents : Z, (p == inject_Z cents / 100)%Q.
Proof.
  intros H N. rewrite fetch_snapshot_cases, H. simpl s_last.
  unfold last_of. destruct (rows df) as [|x l] eqn:R; [congruence|].
  exists (Qround2 (close_last (x :: l))).
  split; [reflexivity|]. split; [apply Qround2_near|].
  exists (round_half_even (close_last (x :: l) * 100)).
  unfold Qround2. apply Qred_correct.
Qed.

Lemma last_price_near_close_witness :
  exists p,
    s_last (fetch_snapshot (intraday_only [100123 # 1000]) "SPY" 3)
      = Some (Fin p) /\
    (- (1 # 200) <= p - close_last [100123 # 1000] <= 1 # 200)%Q /\
    exists cents : Z, (p == inject_Z cents / 100)%Q.
Proof.
  apply (last_price_near_close (intraday_only [100123 # 1000]) "SPY" 3
           (Some [100123 # 1000])); [reflexivity|discriminate].
Defined.

(** X18.  With a positive previous close the change percent has the sign of
    the move: it is not negative when the latest close is not below the
    previous one, not positive when it is not above, and 0 when the two
    are equal. *)
Theorem change_percent_sign download ticker n df :
  download ticker "1d" "1m" = Returns df ->
  (2 <= length (rows df))%nat ->
  (0 < close_prev (rows df))%Q ->
  exists p,
    s_chg_pct (fetch_snapshot download ticker n) = Some (Fin p) /\
    ((close_prev (rows df) <= close_last (rows df) -> 0 <= p) /\
     (close_last (rows df) <= close_prev (rows df) -> p <= 0) /\
     (close_last (rows df) == close_prev (rows df) -> p = 0))%Q.
Proof.
  intros H L P. rewrite fetch_snapshot_cases, H. simpl s_chg_pct.
  unfold chg_pct_of.
  set (l := close_last (rows df)) in *. set (v := close_prev (rows df)) in *.
  replace (2 <=? length (rows df))%nat with true
    by (symmetry; apply Nat.leb_le; exact L).
  replace (Qeq_bool v 0) with false
    by (symmetry; destruct (Qeq_bool v 0) eqn:E;
        [apply Qeq_bool_eq in E; lra|reflexivity]).
  simpl. eexists; split; [reflexivity|].
  assert (D : ((l - v) / v * 100 == (l - v) * (100 / v))%Q)
    by (field; lra).
  assert (K : (0 < 100 / v)%Q) by (apply Qlt_shift_div_l; lra).
  split; [|split]; intro C.
  - apply Qround2_sign. rewrite D. apply Qmult_le_0_compat; lra.
  - apply Qround2_sign. rewrite D.
    assert (0 <= (v - l) * (100 / v))%Q
      by (apply Qmult_le_0_compat; lra).
    lra.
  - rewrite (Qround2_comp _ 0); [reflexivity|].
    rewrite D, C. setoid_replace (v - v)%Q with 0%Q by ring.
    apply Qmult_0_l.
Qed.

Lemma change_percent_sign_witness :
  exists p,
    s_chg_pct (fetch_snapshot (intraday_only [105; 100]%Q) "SPY" 3)
      = Some (Fin p) /\
    (p <= 0)%Q.
Proof.
  destruct (change_percent_sign (intraday_only [105; 100]%Q) "SPY" 3
              (Some [105; 100]%Q) eq_refl) as (p & E & _ & D & _);
    [simpl; lia|reflexivity|].
  exists p. split; [exact E|]. apply D. discriminate.
Defined.

Lemma compute_rsi_value close period v :
  compute_rsi close period = Some v ->
  (period + 1 <= length close)%nat /\ constantb close = false /\
  exists q, v = Fin q /\ (0 <= q <= 100)%Q.
Proof.
  intro H. split; [|split].
  - destruct (Nat.lt_ge_cases (length close) (period + 1)) as [S | S];
      [|exact S].
    rewrite (compute_rsi_short _ _ S) in H. discriminate.
  - destruct (constantb close) eqn:C; [|reflexivity].
    unfold compute_rsi in H.
    destruct ((length close =? 0) || (length close <? period + 1))%nat;
      [discriminate|].
    cbv zeta in H.
    rewrite (dropna_all_nan _ (rsi_constant close period C)) in H.
    discriminate.
  - apply compute_rsi_some in H. destruct H as (x & I & N & ->).
    assert (O := proj1 (Forall_forall _ _) (rsi_all_ok close period) x I).
    destruct x as [q| | |]; simpl in *; try tauto; try discriminate.
    exists (Qround2 q). split; [reflexivity|]. apply Qround2_between, O.
Qed.

(** X19.  What the fields of a snapshot tell about the downloads.  The ticker
    is the one asked for.  A change percent comes with a last price; a
    last price means the intraday download returned rows.  An oscillator
    value means that both downloads returned (a failing intraday call
    leaves the oscillator unavailable too), that the multi-day series has
    at least 15 closes that are not all equal, and the value lies between
    0 and 100. *)
Theorem snapshot_fields download ticker n :
  let snap := fetch_snapshot download ticker n in
  s_ticker snap = ticker /\
  (s_chg_pct snap <> None -> s_last snap <> None) /\
  (s_last snap <> None ->
   exists df, download ticker "1d" "1m" = Returns df /\ rows df <> []) /\
  (forall v, s_rsi snap = Some v ->
   exists df_1m df_15m,
     download ticker "1d" "1m" = Returns df_1m /\
     download ticker "7d" "15m" = Returns df_15m /\
     (15 <= length (rows df_15m))%nat /\
     constantb (rows df_15m) = false /\
     exists q, v = Fin q /\ (0 <= q <= 100)%Q).
Proof.
  intro snap. subst snap. rewrite fetch_snapshot_cases.
  destruct (download ticker "1d" "1m") as [df|e] eqn:D1; simpl.
  - split; [reflexivity|]. split; [|split].
    + unfold chg_pct_of, last_of. destruct (rows df) as [|x [|y l]];
        simpl; intro H; congruence.
    + intro H. exists df. split; [reflexivity|].
      intro E. rewrite E in H. now apply H.
    + intros v H. destruct (download ticker "7d" "15m") as [df2|e] eqn:D2;
        [|discriminate].
      destruct (nonempty df2); [|discriminate].
      apply compute_rsi_value in H. destruct H as (L & C & R).
      exists df, df2. split; [reflexivity|]. split; [reflexivity|].
      split; [simpl in L; lia|]. split; assumption.
  - split; [reflexivity|]. split; [congruence|]. split; [congruence|].
    intros v H. discriminate.
Qed.

Lemma snapshot_fields_witness :
  s_rsi (fetch_snapshot NotifierSpec.spy_down "SPY" 3) = None /\
  s_ticker (fetch_snapshot NotifierSpec.spy_down "SPY" 3) = "SPY".
Proof.
  pose proof (snapshot_fields NotifierSpec.spy_down "SPY" 3) as (T & _ & _ & R).
  split; [|exact T].
  destruct (s_rsi (fetch_snapshot NotifierSpec.spy_down "SPY" 3)) as [v|] eqn:E;
    [|reflexivity].
  destruct (R v eq_refl) as (d1 & _ & D & _). discriminate.
Defined.

End SnapshotMore.

(** ** IndicatorEngine: only the changes matter *)

Module IndicatorShift.
Import Float Pandas Indicator IndicatorSpec RecentSpec.
Import FloatFacts PandasFacts IndicatorFacts.
Local Open Scope Q_scope.

Lemma Qltb_comp a a' b b' : a == a' -> b == b' -> Qltb a b = Qltb a' b'.
Proof. intros Ea Eb. unfold Qltb. now rewrite Ea, Eb. Qed.

Lemma feq_refl x : feq x x.
Proof. destruct x; simpl; auto. reflexivity. Qed.

Lemma feq_add a a' b b' : feq a a' -> feq b b' -> feq (add a b) (add a' b').
Proof.
  destruct a, a', b, b'; simpl; try tauto. intros Ea Eb. now rewrite Ea, Eb.
Qed.

Lemma feq_neg a a' : feq a a' -> feq (neg a) (neg a').
Proof. destruct a, a'; simpl; try tauto. now intros ->. Qed.

Lemma feq_sub a a' b b' : feq a a' -> feq b b' -> feq (sub a b) (sub a' b').
Proof. intros. apply feq_add; [assumption|now apply feq_neg]. Qed.

Lemma feq_div a a' b b' : feq a a' -> feq b b' -> feq (div a b) (div a' b').
Proof.
  intros Ea Eb.
  destruct b as [b| | |], b' as [b'| | |]; simpl in Eb; try tauto;
    destruct a as [a| | |], a' as [a'| | |]; simpl in Ea; try tauto;
    simpl; try exact I; try reflexivity.
  - replace (Qeq_bool b' 0) with (Qeq_bool b 0)
      by (apply Qeqb_comp; [exact Eb|reflexivity]).
    replace (Qeq_bool a' 0) with (Qeq_bool a 0)
      by (apply Qeqb_comp; [exact Ea|reflexivity]).
    replace (Qltb 0 a') with (Qltb 0 a)
      by (apply Qltb_comp; [reflexivity|exact Ea]).
    destruct (Qeq_bool b 0) eqn:Z.
    + destruct (Qeq_bool a 0); [exact I|]. destruct (Qltb 0 a); exact I.
    + simpl. now rewrite Ea, Eb.
  - replace (Qltb b' 0) with (Qltb b 0)
      by (apply Qltb_comp; [exact Eb|reflexivity]).
    destruct (Qltb b 0); exact I.
  - replace (Qltb b' 0) with (Qltb b 0)
      by (apply Qltb_comp; [exact Eb|reflexivity]).
    destruct (Qltb b 0); exact I.
Qed.

Lemma feq_oscillator r r' : feq r r' -> feq (oscillator r) (oscillator r').
Proof.
  intro E. unfold oscillator.
  apply feq_sub; [apply feq_refl|].
  apply feq_div; [apply feq_refl|].
  apply feq_add; [apply feq_refl|exact E].
Qed.

Lemma feq_is_nan x y : feq x y -> is_nan x = is_nan y.
Proof. destruct x, y; simpl; tauto. Qed.

Lemma feq_round2 x y : feq x y -> round2 x = round2 y.
Proof.
  destruct x, y; simpl; try tauto. intro E. now rewrite (Qround2_comp _ _ E).
Qed.

Lemma feq_sum xs ys : Forall2 feq xs ys -> feq (sum xs) (sum ys).
Proof.
  induction 1 as [|x y xs ys E _ IH]; [apply feq_refl|].
  change (feq (add x (sum xs)) (add y (sum ys))). now apply feq_add.
Qed.

Lemma feq_mean xs ys : Forall2 feq xs ys -> feq (mean xs) (mean ys).
Proof.
  intro H. unfold mean. rewrite (Forall2_length H).
  apply feq_div; [now apply feq_sum|apply feq_refl].
Qed.

Lemma Forall2_firstn {A} (R : A -> A -> Prop) n xs ys :
  Forall2 R xs ys -> Forall2 R (firstn n xs) (firstn n ys).
Proof.
  intro H; revert n; induction H; intros [|n]; simpl; constructor; auto.
Qed.

Lemma Forall2_skipn {A} (R : A -> A -> Prop) n xs ys :
  Forall2 R xs ys -> Forall2 R (skipn n xs) (skipn n ys).
Proof.
  intro H; revert n; induction H; intros [|n]; simpl; auto.
Qed.

Lemma feq_rolling_mean w xs ys :
  Forall2 feq xs ys -> Forall2 feq (rolling_mean w xs) (rolling_mean w ys).
Proof.
  intro H. unfold rolling_mean. rewrite (Forall2_length H).
  induction (seq 0 (length ys)) as [|i l IH]; simpl; constructor; [|exact IH].
  destruct (i + 1 <? w)%nat; [exact I|].
  apply feq_mean. unfold window_at. now apply Forall2_firstn, Forall2_skipn.
Qed.

Lemma feq_zip_with f xs xs' ys ys' :
  (forall a a' b b', feq a a' -> feq b b' -> feq (f a b) (f a' b')) ->
  Forall2 feq xs xs' -> Forall2 feq ys ys' ->
  Forall2 feq (zip_with f xs ys) (zip_with f xs' ys').
Proof.
  intros Hf Hx; revert ys ys'.
  induction Hx as [|x x' xs xs' E _ IH]; intros ys ys' Hy; simpl;
    [constructor|].
  destruct Hy; constructor; auto.
Qed.

Lemma feq_dropna xs ys :
  Forall2 feq xs ys -> Forall2 feq (dropna xs) (dropna ys).
Proof.
  induction 1 as [|x y xs ys E _ IH]; simpl; [constructor|].
  rewrite (feq_is_nan _ _ E). destruct (is_nan y); simpl; auto.
Qed.

Lemma feq_last xs ys :
  Forall2 feq xs ys -> feq (last xs NaN) (last ys NaN).
Proof.
  induction 1 as [|x y xs ys E H IH]; [exact I|].
  destruct H; [exact E|exact IH].
Qed.

Lemma up_comp d d' : d == d' -> up d == up d'.
Proof.
  intro E. unfold up. rewrite (Qltb_comp 0 0 d d' (Qeq_refl 0) E).
  now destruct (Qltb 0 d').
Qed.

Lemma down_comp d d' : d == d' -> down d == down d'.
Proof.
  intro E. unfold down. rewrite (Qltb_comp d d' 0 0 E (Qeq_refl 0)).
  destruct (Qltb d' 0); [now rewrite E|reflexivity].
Qed.

Lemma feq_map_fin (f : Q -> Q) xs ys :
  (forall d d', d == d' -> f d == f d') ->
  Forall2 Qeq xs ys ->
  Forall2 feq (map Fin (map f xs)) (map Fin (map f ys)).
Proof.
  intros Hf H. induction H; simpl; constructor; auto. now apply Hf.
Qed.

Lemma feq_rsi close close' period :
  close <> [] -> close' <> [] ->
  Forall2 Qeq (changes close) (changes close') ->
  Forall2 feq (rsi close period) (rsi close' period).
Proof.
  intros N N' H.
  destruct close as [|c t]; [congruence|].
  destruct close' as [|c' t']; [congruence|]. simpl in H.
  unfold rsi.
  assert (R : Forall2 feq (rs (c :: t) period) (rs (c' :: t') period)).
  { unfold rs, avg_gain, avg_loss. rewrite !gain_fin, !loss_fin.
    apply feq_zip_with; [exact feq_div| |]; apply feq_rolling_mean; simpl;
      (constructor; [reflexivity|]).
    - now apply feq_map_fin; [exact up_comp|].
    - now apply feq_map_fin; [exact down_comp|]. }
  induction R; simpl; constructor; auto using feq_oscillator.
Qed.

Lemma steps_shift k c t :
  Forall2 Qeq (steps (k + c) (map (Qplus k) t)) (steps c t).
Proof.
  revert c; induction t as [|x t IH]; intro c; simpl; constructor; [ring|].
  apply IH.
Qed.

Lemma compute_rsi_same_changes close close' period :
  Forall2 Qeq (changes close) (changes close') ->
  length close = length close' ->
  compute_rsi close period = compute_rsi close' period.
Proof.
  intros H L. unfold compute_rsi. rewrite L.
  destruct close' as [|c' t'].
  - reflexivity.
  - destruct close as [|c t]; [discriminate|].
    destruct (_ || _)%bool; [reflexivity|]. cbv zeta.
    assert (D : Forall2 feq (dropna (rsi (c :: t) period))
                            (dropna (rsi (c' :: t') period)))
      by (apply feq_dropna, feq_rsi; [discriminate|discriminate|exact H]).
    pose proof (feq_last _ _ D) as E.
    destruct D as [|x y xs ys Exy D]; [reflexivity|].
    unfold iloc_last. now rewrite (feq_round2 _ _ E).
Qed.

(** X20.  The result depends on the closes only through the changes between
    consecutive closes: two series of the same length with the same
    changes give the same result. *)
Theorem compute_rsi_changes_only close close' period :
  Forall2 Qeq (changes close) (changes close') ->
  length close = length close' ->
  compute_rsi close period = compute_rsi close' period.
Proof.
  intros H L. destruct close as [|c t], close' as [|c' t'];
    try discriminate; [reflexivity|].
  apply compute_rsi_same_changes; assumption.
Qed.

Lemma compute_rsi_changes_only_witness :
  compute_rsi [101; 102; 103; 102; 105] 2 = compute_rsi [1; 2; 3; 2; 5] 2.
Proof.
  apply compute_rsi_changes_only; [|reflexivity].
  repeat constructor.
Defined.

(** X21.  Adding one amount to every close does not change the result. *)
Theorem compute_rsi_shift k close period :
  compute_rsi (map (Qplus k) close) period = compute_rsi close period.
Proof.
  apply compute_rsi_same_changes; [|apply length_map].
  destruct close as [|c t]; [constructor|]. apply steps_shift.
Qed.

End IndicatorShift.
